(** * The CRM GraphQL mutations: [schema.py] and [crm/schema.py]

    A shallow embedding of the four mutation workflows (CreateCustomer,
    BulkCreateCustomers, CreateProduct, CreateOrder) of both schema files,
    over an explicit model of the entity store that the Django ORM calls
    act on.

    Conventions.
    - A Python [str] is a [string]; a character is an [ascii], that is a
      code point in U+0000..U+00FF.  On that range the class [\d] of the
      [re] module is exactly the ten characters 0..9.
    - [None] for an optional argument is [None] of an [option].
    - A mutation is a computation in the monad [M]: it threads the store,
      may raise a Python exception, and logs the store accesses it makes.
    - [graphene.ID] arguments are taken as primary keys ([nat]).
    - [now] is the reading of the clock during the request, the value
      of [timezone.now()]. *)

From Stdlib Require Import Ascii String QArith DecimalString.
From stdpp Require Import gmap strings list fin_maps.

Open Scope string_scope.
Open Scope list_scope.

(** ** Python strings *)

Definition str_of_nat (n : nat) : string :=
  NilEmpty.string_of_uint (Nat.to_uint n).

(** Truthiness of an optional string: [None] and [""] are falsy. *)
Definition truthy (s : option string) : bool :=
  match s with
  | None => false
  | Some EmptyString => false
  | Some _ => true
  end.

(** ** The fragment of [re] used by the pattern [^\+?\d[\d\-]{7,}$] *)

Inductive regex : Type :=
| Bol                                   (* ^ *)
| Eol                                   (* $ *)
| Class (p : ascii -> bool)             (* one character of a class *)
| Cat (r1 r2 : regex)                   (* r1 r2 *)
| Opt (r : regex)                       (* r? *)
| AtLeast (n : nat) (r : regex).        (* r{n,} *)

Definition is_plus (c : ascii) : bool := Ascii.eqb c "+".
Definition is_hyphen (c : ascii) : bool := Ascii.eqb c "-".
Definition is_digit (c : ascii) : bool :=
  (48 <=? nat_of_ascii c)%nat && (nat_of_ascii c <=? 57)%nat.
Definition is_digit_or_hyphen (c : ascii) : bool := is_digit c || is_hyphen c.

Definition newline : ascii := "010".

(** Without [re.MULTILINE], [$] holds at the end of the string and just
    before a newline that is the last character. *)
Definition at_eol (s : string) : bool :=
  match s with
  | EmptyString => true
  | String c EmptyString => Ascii.eqb c newline
  | String _ (String _ _) => false
  end.

(** A backtracking matcher in continuation-passing style.  [bol] tells
    whether the position is the start of the string, [s] is the rest of
    the subject, [k] is what must match afterwards. *)
Definition matcher : Type := bool -> string -> (bool -> string -> bool) -> bool.

Fixpoint times (n : nat) (m : matcher) : matcher :=
  fun bol s k =>
    match n with
    | O => k bol s
    | S n' => m bol s (fun bol' s' => times n' m bol' s' k)
    end.

(** Greedy repetition; an iteration that consumes nothing is not
    repeated, [fuel] bounds the number of iterations. *)
Fixpoint star (fuel : nat) (m : matcher) : matcher :=
  fun bol s k =>
    match fuel with
    | O => false
    | S fuel' =>
        m bol s (fun bol' s' =>
                   (String.length s' <? String.length s)%nat
                   && star fuel' m bol' s' k)
    end
    || k bol s.

Fixpoint rmatch (r : regex) : matcher :=
  fun bol s k =>
    match r with
    | Bol => bol && k bol s
    | Eol => at_eol s && k bol s
    | Class p =>
        match s with
        | EmptyString => false
        | String c s' => p c && k false s'
        end
    | Cat r1 r2 => rmatch r1 bol s (fun bol' s' => rmatch r2 bol' s' k)
    | Opt r' => rmatch r' bol s k || k bol s
    | AtLeast n r' =>
        times n (rmatch r') bol s
          (fun bol' s' => star (String.length s') (rmatch r') bol' s' k)
    end.

(** [re.match(pattern, s)] as a truth value: the pattern matches at the
    start of [s]; what follows the match is not looked at. *)
Definition re_match (pattern : regex) (s : string) : bool :=
  rmatch pattern true s (fun _ _ => true).

(** The pattern [r"^\+?\d[\d\-]{7,}$"]. *)
Definition phone_pattern : regex :=
  Cat Bol
    (Cat (Opt (Class is_plus))
       (Cat (Class is_digit)
          (Cat (AtLeast 7 (Class is_digit_or_hyphen)) Eol))).

(** ** Exceptions and the mutation monad *)

Inductive Exn : Type :=
| NameError (name : string)
| ValueError (msg : string)
| DoesNotExist.

(** [str(e)] *)
Definition str_exn (e : Exn) : string :=
  match e with
  | NameError name => "name '" +:+ name +:+ "' is not defined"
  | ValueError msg => msg
  | DoesNotExist => "Customer matching query does not exist."
  end.

Inductive Outcome (A : Type) : Type :=
| Ok (a : A)
| Raise (e : Exn).
Arguments Ok {A} a.
Arguments Raise {A} e.

(** ** The entity store *)

(** Modelled from the spec: the model classes of [models.py], which is
    not part of the sources.  Customer is {id, name, email, phone
    (optional), created_at}; Product is {id, name, price (decimal),
    stock (integer)}; Order is {id, customer (a reference), total_amount
    (decimal), order_date (timestamp)} with a many-to-many relation to
    Product.  A decimal is an exact rational, a timestamp an integer;
    [created_at] is the time at which the instance is built. *)
Record CustomerFields : Type := {
  name : string;
  email : string;
  phone : option string;
  created_at : Z
}.

Record ProductFields : Type := {
  product_name : string;
  price : Q;
  stock : Z
}.

Record OrderFields : Type := {
  customer_id : option nat;
  total_amount : Q;
  order_date : Z
}.

(** A model instance: the primary key is [None] until it is saved. *)
Record Instance (F : Type) : Type := {
  pk : option nat;
  fields : F
}.
Arguments pk {F} i.
Arguments fields {F} i.

Abbreviation Customer := (Instance CustomerFields).
Abbreviation Product := (Instance ProductFields).
Abbreviation Order := (Instance OrderFields).

(** Modelled from the spec: the Entity Store.  Rows are keyed by their
    store-assigned unique id; [order_products] is the Order-Product
    relation, the set of product ids of each order. *)
Record Store : Type := {
  customers : gmap nat CustomerFields;
  products : gmap nat ProductFields;
  orders : gmap nat OrderFields;
  order_products : gmap nat (gset nat)
}.

Inductive Table : Type := TCustomer | TProduct | TOrder | TOrderProducts.

Inductive StoreOp : Type :=
| Read (t : Table)
| Write (t : Table)
| Rollback.

Definition M (A : Type) : Type := Store -> Outcome A * Store * list StoreOp.

Definition ret {A} (a : A) : M A := fun st => (Ok a, st, []).

Definition bind {A B} (m : M A) (f : A -> M B) : M B :=
  fun st =>
    match m st with
    | (Ok a, st', ops) =>
        match f a st' with
        | (r, st'', ops') => (r, st'', ops ++ ops')
        end
    | (Raise e, st', ops) => (Raise e, st', ops)
    end.

Definition raise {A} (e : Exn) : M A := fun st => (Raise e, st, []).

(** [try: m except Exception as e: ...]: the outcome of [m] as a value;
    what [m] wrote before raising stays written. *)
Definition try {A} (m : M A) : M (Outcome A) :=
  fun st =>
    match m st with
    | (r, st', ops) => (Ok r, st', ops)
    end.

(** [@transaction.atomic]: an exception that leaves the block undoes its
    writes. *)
Definition atomic {A} (m : M A) : M A :=
  fun st =>
    match m st with
    | (Raise e, _, ops) => (Raise e, st, ops ++ [Rollback])
    | r => r
    end.

#[global] Instance M_ret : MRet M := @ret.
#[global] Instance M_bind : MBind M := fun A B f m => bind m f.

(** A global name of a module: bound if the module imports it. *)
Definition global (globals : list string) (name : string) : M unit :=
  if bool_decide (name ∈ globals) then mret tt else raise (NameError name).

(** ** The ORM calls *)

(** The next id a table assigns. *)
Definition next_id {F} (tbl : gmap nat F) : nat :=
  S (max_list (elements (dom tbl))).

Definition loaded {F} (kv : nat * F) : Instance F :=
  {| pk := Some kv.1; fields := kv.2 |}.

Definition rows {F} (tbl : gmap nat F) : list (Instance F) :=
  loaded <$> map_to_list tbl.

(** Whether some customer row has the email [e]. *)
Definition email_in_use (st : Store) (e : string) : bool :=
  bool_decide (Exists (fun c => email (fields c) = e) (rows (customers st))).

(** [Customer.objects.filter(email=email).exists()] *)
Definition Customer_objects_filter_exists (e : string) : M bool :=
  fun st => (Ok (email_in_use st e), st, [Read TCustomer]).

(** [Customer.objects.get(id=id)] *)
Definition Customer_objects_get (id : nat) : M Customer :=
  fun st =>
    match customers st !! id with
    | Some f => (Ok {| pk := Some id; fields := f |}, st, [Read TCustomer])
    | None => (Raise DoesNotExist, st, [Read TCustomer])
    end.

(** The product rows whose id is one of [ids], in the order of the
    store. *)
Definition products_with_ids (st : Store) (ids : list nat) : list Product :=
  loaded <$> filter (fun kv => kv.1 ∈ ids) (map_to_list (products st)).

(** [Product.objects.filter(id__in=ids)], evaluated. *)
Definition Product_objects_filter (ids : list nat) : M (list Product) :=
  fun st => (Ok (products_with_ids st ids), st, [Read TProduct]).

(** [instance.save()]: an insert under a new id when the instance has no
    primary key, else an update of (or insert at) its row. *)
Definition save_row {F} (tbl : gmap nat F) (i : Instance F) : nat * gmap nat F :=
  match pk i with
  | None => (next_id tbl, <[next_id tbl := fields i]> tbl)
  | Some id => (id, <[id := fields i]> tbl)
  end.

Definition Customer_save (c : Customer) : M Customer :=
  fun st =>
    let '(id, tbl) := save_row (customers st) c in
    (Ok {| pk := Some id; fields := fields c |},
     {| customers := tbl; products := products st;
        orders := orders st; order_products := order_products st |},
     [Write TCustomer]).

Definition Product_save (p : Product) : M Product :=
  fun st =>
    let '(id, tbl) := save_row (products st) p in
    (Ok {| pk := Some id; fields := fields p |},
     {| customers := customers st; products := tbl;
        orders := orders st; order_products := order_products st |},
     [Write TProduct]).

Definition Order_save (o : Order) : M Order :=
  fun st =>
    let '(id, tbl) := save_row (orders st) o in
    (Ok {| pk := Some id; fields := fields o |},
     {| customers := customers st; products := products st;
        orders := tbl; order_products := order_products st |},
     [Write TOrder]).

(** [order.products.set(products)] *)
Definition Order_products_set (o : Order) (ps : list Product) : M unit :=
  fun st =>
    match pk o with
    | Some id =>
        (Ok tt,
         {| customers := customers st; products := products st;
            orders := orders st;
            order_products :=
              <[id := list_to_set (omap pk ps)]> (order_products st) |},
         [Write TOrderProducts])
    | None => (Raise (ValueError "instance needs a primary key"), st, [])
    end.

(** [Model(name=..., ...)]: an unsaved instance. *)
Definition new {F} (f : F) : Instance F := {| pk := None; fields := f |}.

(** [Model.objects.create(name=..., ...)]: build the instance and save it. *)
Definition Customer_objects_create (f : CustomerFields) : M Customer :=
  Customer_save (new f).
Definition Product_objects_create (f : ProductFields) : M Product :=
  Product_save (new f).
Definition Order_objects_create (f : OrderFields) : M Order :=
  Order_save (new f).

(** ** Results of the mutations *)

Record CreateCustomerPayload : Type := {
  cc_customer : option Customer;
  cc_message : string;
  cc_errors : list string
}.

Record CustomerInput : Type := {
  in_name : string;
  in_email : string;
  in_phone : option string
}.

Record BulkCreateCustomersPayload : Type := {
  bc_customers : list Customer;
  bc_errors : list string
}.

Record CreateProductPayload : Type := {
  cp_product : option Product;
  cp_errors : list string
}.

Record CreateOrderPayload : Type := {
  co_order : option Order;
  co_errors : list string
}.

(** [if errors:] *)
Definition nonempty {A} (l : list A) : bool :=
  match l with [] => false | _ :: _ => true end.

(** [errors.append(msg)] under [if c:] *)
Definition append_if (c : bool) (errors : list string) (msg : string) : list string :=
  if c then errors ++ [msg] else errors.

(** [sum(p.price for p in products)] *)
Definition sum_prices (ps : list Product) : Q :=
  foldl (fun acc p => acc + price (fields p))%Q 0%Q ps.

(** [order_date or timezone.now()]: a datetime is always truthy, so
    [timezone] is looked up only when no date was given. *)
Definition order_date_or_now (globals : list string) (now : Z)
    (date : option Z) : M Z :=
  match date with
  | Some d => mret d
  | None => global globals "timezone";; mret now
  end.

(** [phone and not re.match(pattern, phone)]: [re] is looked up only for
    a truthy phone. *)
Definition phone_rejected (globals : list string) (phone : option string) : M bool :=
  if truthy phone then
    global globals "re";;
    mret (negb (re_match phone_pattern (default "" phone)))
  else mret false.

(** ** [schema.py] *)

Module Schema.

(** The names bound by the import statements of the file. *)
Definition globals : list string :=
  ["re"; "graphene"; "DjangoObjectType"; "transaction"; "timezone";
   "Customer"; "Product"; "Order"].

(** Executing the module: the decorator [@transaction.atomic] is
    evaluated when the body of class BulkCreateCustomers runs. *)
Definition load : M unit := global globals "transaction".

Definition CreateCustomer_mutate (now : Z) (name email : string)
    (phone : option string) : M CreateCustomerPayload :=
  let errors := [] in
  dup ← Customer_objects_filter_exists email;
  let errors := append_if dup errors "Email already exists" in
  bad ← phone_rejected globals phone;
  let errors :=
    append_if bad errors
      "Invalid phone format (use +1234567890 or 123-456-7890)" in
  if nonempty errors then
    mret {| cc_customer := None; cc_message := "Validation failed";
            cc_errors := errors |}
  else
    customer ← Customer_save
      (new {| name := name; email := email; phone := phone;
              created_at := now |});
    mret {| cc_customer := Some customer;
            cc_message := "Customer created successfully";
            cc_errors := [] |}.

(** The body of the [try] for one row. *)
Definition bulk_row (now : Z) (data : CustomerInput) : M Customer :=
  dup ← Customer_objects_filter_exists (in_email data);
  if (dup : bool) then raise (ValueError ("Duplicate email: " +:+ in_email data))
  else
    bad ← phone_rejected globals (in_phone data);
    if (bad : bool) then
      raise (ValueError ("Invalid phone format for " +:+ in_email data))
    else
      Customer_save
        (new {| name := in_name data; email := in_email data;
                phone := in_phone data; created_at := now |}).

(** [for i, data in enumerate(input)], from index [i] on, with the two
    lists built so far. *)
Fixpoint bulk_loop (now : Z) (i : nat) (input : list CustomerInput)
    (created_customers : list Customer) (errors : list string)
    : M BulkCreateCustomersPayload :=
  match input with
  | [] => mret {| bc_customers := created_customers; bc_errors := errors |}
  | data :: rest =>
      r ← try (bulk_row now data);
      match r : Outcome Customer with
      | Ok c => bulk_loop now (S i) rest (created_customers ++ [c]) errors
      | Raise e =>
          bulk_loop now (S i) rest created_customers
            (errors ++ ["Row " +:+ str_of_nat (i + 1) +:+ ": " +:+ str_exn e])
      end
  end.

Definition BulkCreateCustomers_mutate (now : Z) (input : list CustomerInput)
    : M BulkCreateCustomersPayload :=
  atomic (bulk_loop now 0 input [] []).

Definition CreateProduct_mutate (name : string) (price : Q) (stock : Z)
    : M CreateProductPayload :=
  let errors := [] in
  let errors := append_if (Qle_bool price 0) errors "Price must be positive" in
  let errors := append_if (stock <? 0)%Z errors "Stock cannot be negative" in
  if nonempty errors then
    mret {| cp_product := None; cp_errors := errors |}
  else
    product ← Product_save
      (new {| product_name := name; price := price; stock := stock |});
    mret {| cp_product := Some product; cp_errors := [] |}.

Definition CreateOrder_mutate (now : Z) (customer_id : nat)
    (product_ids : list nat) (order_date : option Z) : M CreateOrderPayload :=
  let errors := [] in
  r ← try (Customer_objects_get customer_id);
  match r : Outcome Customer with
  | Raise DoesNotExist =>
      mret {| co_order := None;
              co_errors := errors ++ ["Invalid customer ID"] |}
  | Raise e => raise e
  | Ok customer =>
      if negb (nonempty product_ids) then
        mret {| co_order := None;
                co_errors :=
                  errors ++ ["At least one product must be provided"] |}
      else
        products ← Product_objects_filter product_ids;
        if negb (length products =? length product_ids)%nat then
          mret {| co_order := None;
                  co_errors := errors ++ ["Some product IDs are invalid"] |}
        else
          let total_amount := sum_prices products in
          date ← order_date_or_now globals now order_date;
          order ← Order_save
            (new {| customer_id := pk customer;
                    total_amount := total_amount; order_date := date |});
          Order_products_set order products;;
          mret {| co_order := Some order; co_errors := [] |}
  end.

End Schema.

(** ** [crm/schema.py] *)

Module CrmSchema.

(** The names bound by the import statements of the file: it imports
    neither [re] nor [transaction] nor [timezone]. *)
Definition globals : list string :=
  ["graphene"; "DjangoObjectType"; "DjangoFilterConnectionField";
   "Customer"; "Product"; "Order";
   "CustomerFilter"; "ProductFilter"; "OrderFilter"].

(** Executing the module: the decorator [@transaction.atomic] is
    evaluated when the body of class BulkCreateCustomers runs. *)
Definition load : M unit := global globals "transaction".

Definition CreateCustomer_mutate (now : Z) (name email : string)
    (phone : option string) : M CreateCustomerPayload :=
  let errors := [] in
  dup ← Customer_objects_filter_exists email;
  let errors := append_if dup errors "Email already exists" in
  bad ← phone_rejected globals phone;
  let errors :=
    append_if bad errors
      "Invalid phone format (use +1234567890 or 123-456-7890)" in
  if nonempty errors then
    mret {| cc_customer := None; cc_message := "Validation failed";
            cc_errors := errors |}
  else
    customer ← Customer_objects_create
      {| name := name; email := email; phone := phone; created_at := now |};
    Customer_save customer;;
    mret {| cc_customer := Some customer;
            cc_message := "Customer created successfully";
            cc_errors := [] |}.

(** The body of the [try] for one row; the instance is appended to
    [created_customers] before its second save. *)
Definition bulk_row (now : Z) (data : CustomerInput) : M Customer :=
  dup ← Customer_objects_filter_exists (in_email data);
  if (dup : bool) then
    raise (ValueError ("Duplicate email: " +:+ in_email data))
  else
    bad ← phone_rejected globals (in_phone data);
    if (bad : bool) then
      raise (ValueError ("Invalid phone format for " +:+ in_email data))
    else
      c ← Customer_objects_create
        {| name := in_name data; email := in_email data;
           phone := in_phone data; created_at := now |};
      Customer_save c;;
      mret c.

Fixpoint bulk_loop (now : Z) (i : nat) (input : list CustomerInput)
    (created_customers : list Customer) (errors : list string)
    : M BulkCreateCustomersPayload :=
  match input with
  | [] => mret {| bc_customers := created_customers; bc_errors := errors |}
  | data :: rest =>
      r ← try (bulk_row now data);
      match r : Outcome Customer with
      | Ok c => bulk_loop now (S i) rest (created_customers ++ [c]) errors
      | Raise e =>
          bulk_loop now (S i) rest created_customers
            (errors ++ ["Row " +:+ str_of_nat (i + 1) +:+ ": " +:+ str_exn e])
      end
  end.

Definition BulkCreateCustomers_mutate (now : Z) (input : list CustomerInput)
    : M BulkCreateCustomersPayload :=
  atomic (bulk_loop now 0 input [] []).

Definition CreateProduct_mutate (name : string) (price : Q) (stock : Z)
    : M CreateProductPayload :=
  let errors := [] in
  let errors := append_if (Qle_bool price 0) errors "Price must be positive" in
  let errors := append_if (stock <? 0)%Z errors "Stock cannot be negative" in
  if nonempty errors then
    mret {| cp_product := None; cp_errors := errors |}
  else
    product ← Product_objects_create
      {| product_name := name; price := price; stock := stock |};
    Product_save product;;
    mret {| cp_product := Some product; cp_errors := [] |}.

Definition CreateOrder_mutate (now : Z) (customer_id : nat)
    (product_ids : list nat) (order_date : option Z) : M CreateOrderPayload :=
  let errors := [] in
  r ← try (Customer_objects_get customer_id);
  match r : Outcome Customer with
  | Raise DoesNotExist =>
      mret {| co_order := None;
              co_errors := errors ++ ["Invalid customer ID"] |}
  | Raise e => raise e
  | Ok customer =>
      if negb (nonempty product_ids) then
        mret {| co_order := None;
                co_errors :=
                  errors ++ ["At least one product must be provided"] |}
      else
        products ← Product_objects_filter product_ids;
        if negb (length products =? length product_ids)%nat then
          mret {| co_order := None;
                  co_errors := errors ++ ["Some product IDs are invalid"] |}
        else
          let total_amount := sum_prices products in
          date ← order_date_or_now globals now order_date;
          order ← Order_objects_create
            {| customer_id := pk customer;
               total_amount := total_amount; order_date := date |};
          Order_save order;;
          Order_products_set order products;;
          mret {| co_order := Some order; co_errors := [] |}
  end.

End CrmSchema.

(** ** [seed.py] *)

Definition empty_store : Store :=
  {| customers := ∅; products := ∅; orders := ∅; order_products := ∅ |}.

Definition seed (now : Z) : M unit :=
  Customer_objects_create
    {| name := "Alice"; email := "alice@example.com";
       phone := Some "+1234567890"; created_at := now |};;
  Customer_objects_create
    {| name := "Bob"; email := "bob@example.com";
       phone := Some "123-456-7890"; created_at := now |};;
  Product_objects_create
    {| product_name := "Laptop"; price := 99999 # 100; stock := 10 |};;
  Product_objects_create
    {| product_name := "Phone"; price := 49999 # 100; stock := 20 |};;
  mret tt.

(** The store after the seed script ran on an empty database. *)
Definition seeded : Store := (seed 0 empty_store).1.2.

(** What a computation returns, the store it leaves, and its log. *)
Definition result {A} (r : Outcome A * Store * list StoreOp) : Outcome A := r.1.1.
Definition store_after {A} (r : Outcome A * Store * list StoreOp) : Store := r.1.2.
Definition log {A} (r : Outcome A * Store * list StoreOp) : list StoreOp := r.2.

(** The value a computation returned, if it did not raise. *)
Definition returned {A} (r : Outcome A * Store * list StoreOp) : option A :=
  match result r with
  | Ok a => Some a
  | Raise _ => None
  end.

(** ** Notions the properties are stated with *)

(** Some stored customer has the email [e]. *)
Definition email_taken (st : Store) (e : string) : Prop :=
  ∃ id f, customers st !! id = Some f ∧ email f = e.

(** The current price of product [id]; 0 when the id does not resolve. *)
Definition price_of (st : Store) (id : nat) : Q :=
  match products st !! id with
  | Some f => price f
  | None => 0
  end.

(** The sum of the current prices of the products [ids], each id of the
    list counted once. *)
Definition sum_of_prices (st : Store) (ids : list nat) : Q :=
  foldr (fun id acc => price_of st id + acc)%Q 0%Q ids.

(** Every character of [s] is in the class [p]. *)
Fixpoint all_chars (p : ascii -> bool) (s : string) : bool :=
  match s with
  | EmptyString => true
  | String c s' => p c && all_chars p s'
  end.

(** [s] without one leading [+], if it has one. *)
Definition strip_plus (s : string) : string :=
  match s with
  | String c s' => if is_plus c then s' else s
  | EmptyString => s
  end.

(** The iterations of a one-character class followed by [k], by
    recursion on the subject. *)
Fixpoint class_star (p : ascii -> bool) (s : string) (k : string -> bool) : bool :=
  match s with
  | EmptyString => false
  | String c s' => p c && class_star p s' k
  end
  || k s.

(** One digit, then at least 7 more digits or hyphens, with nothing
    after. *)
Definition digit_then_seven (s : string) : bool :=
  match s with
  | EmptyString => false
  | String d more =>
      is_digit d
      && (all_chars is_digit_or_hyphen more && (7 <=? String.length more)%nat)
  end.

(** Follows the words of the spec: an optional leading [+], one digit,
    then at least 7 more digits or hyphens, with nothing after. *)
Definition phone_format_spec (s : string) : bool :=
  digit_then_seven (strip_plus s).

(** [s] without its last character when that is a newline. *)
Fixpoint chomp (s : string) : string :=
  match s with
  | EmptyString => EmptyString
  | String c EmptyString => if Ascii.eqb c newline then EmptyString else s
  | String c s' => String c (chomp s')
  end.

(** The phones the phone check lets through. *)
Definition phone_accepted (phone : option string) : bool :=
  match phone with
  | None => true
  | Some EmptyString => true
  | Some s => phone_format_spec (chomp s)
  end.

(** [n] calls of [m] one after the other, from the store [st]: what each
    returned, and the store after the last. *)
Fixpoint repeat_call {A} (m : M A) (n : nat) (st : Store)
    : list (Outcome A) * Store :=
  match n with
  | O => ([], st)
  | S n' =>
      let r := m st in
      let '(rs, st') := repeat_call m n' (store_after r) in
      (result r :: rs, st')
  end.

(** Follows the words of the spec for one row of a batch: the message of
    the violation found, the email check first. *)
Definition row_violation (st : Store) (data : CustomerInput) : option string :=
  if email_in_use st (in_email data) then
    Some ("Duplicate email: " +:+ in_email data)
  else if phone_accepted (in_phone data) then None
  else Some ("Invalid phone format for " +:+ in_email data).

(** The store with one more customer, under the next id. *)
Definition add_customer (st : Store) (f : CustomerFields) : Store :=
  {| customers := <[next_id (customers st) := f]> (customers st);
     products := products st; orders := orders st;
     order_products := order_products st |}.

Definition row_fields (now : Z) (data : CustomerInput) : CustomerFields :=
  {| name := in_name data; email := in_email data; phone := in_phone data;
     created_at := now |}.

(** Follows the words of the spec: the rows in input order, from the
    0-based index [i] on; a row with a violation adds one error string
    and is skipped, any other row is persisted and added to the output. *)
Fixpoint bulk_spec (now : Z) (i : nat) (input : list CustomerInput) (st : Store)
    : list Customer * list string * Store :=
  match input with
  | [] => ([], [], st)
  | data :: rest =>
      match row_violation st data with
      | Some msg =>
          let '(cs, es, st') := bulk_spec now (S i) rest st in
          (cs, ("Row " +:+ str_of_nat (S i) +:+ ": " +:+ msg) :: es, st')
      | None =>
          let c := {| pk := Some (next_id (customers st));
                      fields := row_fields now data |} in
          let '(cs, es, st') :=
            bulk_spec now (S i) rest (add_customer st (row_fields now data)) in
          (c :: cs, es, st')
      end
  end.

(** The errors CreateCustomer and CreateProduct collect, in check order. *)
Definition customer_errors (st : Store) (e : string) (phone : option string)
    : list string :=
  (if email_in_use st e then ["Email already exists"] else [])
  ++ (if phone_accepted phone then []
      else ["Invalid phone format (use +1234567890 or 123-456-7890)"]).

Definition product_errors (price : Q) (stock : Z) : list string :=
  (if Qle_bool price 0 then ["Price must be positive"] else [])
  ++ (if (stock <? 0)%Z then ["Stock cannot be negative"] else []).

(** The three parts of what [bulk_spec] gives. *)
Definition bulk_created (now : Z) (i : nat) (input : list CustomerInput)
    (st : Store) : list Customer :=
  (bulk_spec now i input st).1.1.
Definition bulk_errors (now : Z) (i : nat) (input : list CustomerInput)
    (st : Store) : list string :=
  (bulk_spec now i input st).1.2.
Definition bulk_store (now : Z) (i : nat) (input : list CustomerInput)
    (st : Store) : Store :=
  (bulk_spec now i input st).2.

(** Rows for a batch on the seeded store. *)
Definition carol : CustomerInput :=
  {| in_name := "Carol"; in_email := "carol@example.com";
     in_phone := Some "+1234567891" |}.
Definition alice_again : CustomerInput :=
  {| in_name := "Alice"; in_email := "alice@example.com"; in_phone := None |}.
Definition dave : CustomerInput :=
  {| in_name := "Dave"; in_email := "dave@example.com"; in_phone := None |}.

(** The order a successful CreateOrder builds, and the store it leaves. *)
Definition placed_order (now : Z) (st : Store) (cid : nat) (ids : list nat)
    (date : option Z) : Order :=
  {| pk := Some (next_id (orders st));
     fields := {| customer_id := Some cid;
                  total_amount := sum_prices (products_with_ids st ids);
                  order_date := default now date |} |}.

Definition store_with_order (now : Z) (st : Store) (cid : nat) (ids : list nat)
    (date : option Z) : Store :=
  {| customers := customers st; products := products st;
     orders := <[next_id (orders st) := fields (placed_order now st cid ids date)]>
                 (orders st);
     order_products :=
       <[next_id (orders st) := list_to_set (omap pk (products_with_ids st ids))]>
         (order_products st) |}.

(** A phone that ends in a newline. *)
Definition phone_with_newline : string :=
  "12345678" +:+ String newline EmptyString.

(** ** Invariants of the store *)

(** No two customers have the same email. *)
Definition emails_unique (st : Store) : Prop :=
  ∀ i j f g,
    customers st !! i = Some f → customers st !! j = Some g →
    email f = email g → i = j.

(** [st'] has every row of [st], unchanged, and the product set of every
    order of [st], unchanged. *)
Definition extends (st st' : Store) : Prop :=
  customers st ⊆ customers st'
  ∧ products st ⊆ products st'
  ∧ orders st ⊆ orders st'
  ∧ ∀ oid, is_Some (orders st !! oid) →
           order_products st' !! oid = order_products st !! oid.

(** * Properties *)

(** Unfolds the monad, so that a mutation applied to a store computes. *)
Ltac unfold_M := unfold mbind, M_bind, bind, mret, M_ret, ret, try.

(** ** The store *)

Lemma next_id_fresh {F} (tbl : gmap nat F) : tbl !! next_id tbl = None.
Proof.
  destruct (tbl !! next_id tbl) as [f|] eqn:E; [|done].
  assert (next_id tbl ∈ elements (dom tbl)) as Hin.
  { apply elem_of_elements, elem_of_dom. eauto. }
  apply max_list_elem_of_le in Hin. unfold next_id in Hin. lia.
Qed.

Lemma email_in_use_true (st : Store) (e : string) :
  email_in_use st e = true ↔ email_taken st e.
Proof.
  unfold email_in_use, email_taken, rows.
  rewrite bool_decide_eq_true, Exists_exists. split.
  - intros (c & Hc & He). apply list_elem_of_fmap in Hc as ([id f] & -> & Hkv).
    apply elem_of_map_to_list in Hkv. eauto.
  - intros (id & f & Hl & He). exists (loaded (id, f)). split; [|done].
    apply list_elem_of_fmap. exists (id, f). split; [done|].
    by apply elem_of_map_to_list.
Qed.

Lemma email_in_use_false (st : Store) (e : string) :
  email_in_use st e = false ↔ ¬ email_taken st e.
Proof.
  rewrite <- email_in_use_true. destruct (email_in_use st e); [|done].
  split; [done|]. by intros [].
Qed.

(** ** Resolving product ids *)

Lemma matching_keys_NoDup {F} (tbl : gmap nat F) (ids : list nat) :
  NoDup (filter (fun kv : nat * F => kv.1 ∈ ids) (map_to_list tbl)).*1.
Proof.
  eapply sublist_NoDup; [apply (NoDup_fst_map_to_list tbl)|].
  apply fmap_sublist, sublist_filter.
Qed.

Lemma elem_of_matching_keys {F} (tbl : gmap nat F) (ids : list nat) (i : nat) :
  i ∈ (filter (fun kv : nat * F => kv.1 ∈ ids) (map_to_list tbl)).*1
  ↔ i ∈ ids ∧ is_Some (tbl !! i).
Proof.
  rewrite list_elem_of_fmap. split.
  - intros ([k f] & -> & Hin). apply list_elem_of_filter in Hin as [Hk Hin].
    apply elem_of_map_to_list in Hin. simpl in *. eauto.
  - intros [Hi [f Hf]]. exists (i, f). split; [done|].
    apply list_elem_of_filter. split; [done|]. by apply elem_of_map_to_list.
Qed.

Lemma loaded_pks {F} (l : list (nat * F)) : omap pk (loaded <$> l) = l.*1.
Proof. induction l as [|kv l IH]; [done|]. cbn. by f_equal. Qed.

Lemma products_with_ids_pks (st : Store) (ids : list nat) :
  omap pk (products_with_ids st ids)
  = (filter (fun kv : nat * ProductFields => kv.1 ∈ ids)
       (map_to_list (products st))).*1.
Proof. apply loaded_pks. Qed.

Lemma products_with_ids_length (st : Store) (ids : list nat) :
  length (products_with_ids st ids)
  = length (filter (fun kv : nat * ProductFields => kv.1 ∈ ids)
              (map_to_list (products st))).*1.
Proof. unfold products_with_ids. by rewrite !length_fmap. Qed.

(** The resolved count is the requested count exactly when the ids are
    pairwise distinct and each of them resolves. *)
Lemma resolved_count_eq (st : Store) (ids : list nat) :
  length (products_with_ids st ids) = length ids
  ↔ NoDup ids ∧ Forall (fun i => is_Some (products st !! i)) ids.
Proof.
  rewrite products_with_ids_length. split.
  - intros Hlen.
    assert ((filter (fun kv : nat * ProductFields => kv.1 ∈ ids)
               (map_to_list (products st))).*1 ≡ₚ ids) as Hp.
    { apply submseteq_length_Permutation; [|lia].
      apply NoDup_submseteq; [apply matching_keys_NoDup|].
      intros i Hi. by apply elem_of_matching_keys in Hi as [? _]. }
    split.
    + rewrite <- Hp. apply matching_keys_NoDup.
    + apply Forall_forall. intros i Hi. rewrite <- Hp in Hi.
      by apply elem_of_matching_keys in Hi as [_ ?].
  - intros [Hnd Hall]. apply Permutation_length, NoDup_Permutation;
      [apply matching_keys_NoDup|done|].
    intros i. rewrite elem_of_matching_keys. rewrite Forall_forall in Hall.
    split; [by intros [? _]|]. intros Hi. split; [done|]. by apply Hall.
Qed.

Lemma matching_keys_perm (st : Store) (ids : list nat) :
  NoDup ids → Forall (fun i => is_Some (products st !! i)) ids →
  omap pk (products_with_ids st ids) ≡ₚ ids.
Proof.
  intros Hnd Hall. rewrite products_with_ids_pks.
  apply NoDup_Permutation; [apply matching_keys_NoDup|done|].
  intros i. rewrite elem_of_matching_keys. rewrite Forall_forall in Hall.
  split; [by intros [? _]|]. intros Hi. split; [done|]. by apply Hall.
Qed.

(** ** Sums of prices *)

Lemma foldl_Qplus {A} (g : A -> Q) (l : list A) (a : Q) :
  (foldl (fun acc x => acc + g x) a l == a + foldr (fun x acc => g x + acc) 0 l)%Q.
Proof.
  revert a. induction l as [|x l IH]; intros a; simpl.
  - ring.
  - rewrite IH. ring.
Qed.

Lemma sum_of_prices_perm (st : Store) (ids ids' : list nat) :
  ids ≡ₚ ids' → (sum_of_prices st ids == sum_of_prices st ids')%Q.
Proof.
  unfold sum_of_prices.
  induction 1 as [|i l l' _ IH|i j l|l1 l2 l3 _ IH1 _ IH2]; simpl.
  - reflexivity.
  - by rewrite IH.
  - ring.
  - by rewrite IH1.
Qed.

Lemma sum_prices_resolved (st : Store) (ids : list nat) :
  (sum_prices (products_with_ids st ids)
   == sum_of_prices st (omap pk (products_with_ids st ids)))%Q.
Proof.
  unfold sum_prices. rewrite foldl_Qplus, Qplus_0_l.
  rewrite products_with_ids_pks. unfold products_with_ids, sum_of_prices.
  assert (Forall (fun kv : nat * ProductFields => products st !! kv.1 = Some kv.2)
            (filter (fun kv : nat * ProductFields => kv.1 ∈ ids)
               (map_to_list (products st)))) as Hall.
  { apply Forall_forall. intros [k f] Hin.
    apply list_elem_of_filter in Hin as [_ Hin].
    by apply elem_of_map_to_list in Hin. }
  induction Hall as [|[k f] l Hkv _ IH]; simpl; [reflexivity|].
  rewrite IH. unfold price_of. simpl in Hkv. rewrite Hkv. reflexivity.
Qed.

(** ** CreateOrder, unfolded *)

Lemma Schema_CreateOrder_unfold now cid ids date st :
  Schema.CreateOrder_mutate now cid ids date st =
  match customers st !! cid with
  | None =>
      (Ok {| co_order := None; co_errors := ["Invalid customer ID"] |},
       st, [Read TCustomer])
  | Some _ =>
      match ids with
      | [] =>
          (Ok {| co_order := None;
                 co_errors := ["At least one product must be provided"] |},
           st, [Read TCustomer])
      | _ :: _ =>
          if decide (length (products_with_ids st ids) = length ids) then
            (Ok {| co_order := Some (placed_order now st cid ids date);
                   co_errors := [] |},
             store_with_order now st cid ids date,
             [Read TCustomer; Read TProduct; Write TOrder; Write TOrderProducts])
          else
            (Ok {| co_order := None;
                   co_errors := ["Some product IDs are invalid"] |},
             st, [Read TCustomer; Read TProduct])
      end
  end.
Proof.
  unfold Schema.CreateOrder_mutate, Customer_objects_get. unfold_M.
  destruct (customers st !! cid) as [f|]; [|done].
  destruct ids as [|i ids]; [done|].
  cbn [nonempty negb]. unfold Product_objects_filter.
  destruct (decide (length (products_with_ids st (i :: ids)) = length (i :: ids)))
    as [Heq|Hne].
  - apply Nat.eqb_eq in Heq as Heq'. rewrite Heq'. cbn [negb].
    destruct date as [d|]; reflexivity.
  - apply Nat.eqb_neq in Hne as Hne'. rewrite Hne'. reflexivity.
Qed.

(** The gates of [crm/schema.py] are those of [schema.py]: whenever the
    resolved count differs from the requested count, or an earlier gate
    fires, both bodies return the same and neither writes. *)
Lemma CrmSchema_CreateOrder_gates now cid ids date st :
  customers st !! cid = None ∨ ids = []
  ∨ length (products_with_ids st ids) ≠ length ids →
  CrmSchema.CreateOrder_mutate now cid ids date st
  = Schema.CreateOrder_mutate now cid ids date st.
Proof.
  intros H.
  unfold CrmSchema.CreateOrder_mutate, Schema.CreateOrder_mutate, Customer_objects_get.
  unfold_M.
  destruct (customers st !! cid) as [f|]; [|done].
  destruct ids as [|i ids]; [done|].
  destruct H as [H|[H|H]]; [done|done|].
  cbn [nonempty negb]. unfold Product_objects_filter.
  apply Nat.eqb_neq in H. by rewrite H.
Qed.

(** ** CreateOrder *)



(** C6 (as amended) — For every call to CreateOrder with an empty
    product id list whose customer id resolves, the result is order =
    null with errors = ["At least one product must be provided"]; the
    store is left as it was, and the only store access of the call is the
    read that looks the customer up. *)
Theorem CreateOrder_empty_product_ids now cid date st :
  is_Some (customers st !! cid) →
  Schema.CreateOrder_mutate now cid [] date st
  = (Ok {| co_order := None;
           co_errors := ["At least one product must be provided"] |},
     st, [Read TCustomer]).
Proof. intros [f Hf]. rewrite Schema_CreateOrder_unfold. by rewrite Hf. Qed.

Lemma CreateOrder_empty_product_ids_witness :
  Schema.CreateOrder_mutate 0 1 [] None seeded
  = (Ok {| co_order := None;
           co_errors := ["At least one product must be provided"] |},
     seeded, [Read TCustomer]).
Proof.
  apply (CreateOrder_empty_product_ids 0 1 None seeded).
  eexists. vm_compute. reflexivity.
Defined.

(** With an empty product id list the store is read all the same, and a
    customer id that does not resolve is reported instead of the empty
    list. *)
Lemma CreateOrder_empty_product_ids_reads_customer :
  log (Schema.CreateOrder_mutate 0 1 [] None seeded) = [Read TCustomer]
  ∧ result (Schema.CreateOrder_mutate 0 1 [] None empty_store)
    = Ok {| co_order := None; co_errors := ["Invalid customer ID"] |}.
Proof. split; vm_compute; reflexivity. Qed.

(** A list with a repeated id resolves to fewer products than it has
    entries. *)
Lemma repeated_id_resolves_short (st : Store) (ids : list nat) :
  ¬ NoDup ids → length (products_with_ids st ids) < length ids.
Proof.
  intros Hdup. rewrite products_with_ids_length.
  assert (length (filter (fun kv : nat * ProductFields => kv.1 ∈ ids)
                    (map_to_list (products st))).*1 ≤ length ids)%nat as Hle.
  { apply submseteq_length, NoDup_submseteq; [apply matching_keys_NoDup|].
    intros i Hi. by apply elem_of_matching_keys in Hi as [? _]. }
  destruct (decide (length (products_with_ids st ids) = length ids)) as [Heq|Hne].
  - apply resolved_count_eq in Heq as [Hnd _]. done.
  - rewrite products_with_ids_length in Hne. lia.
Qed.

(** C10 (as amended) — For every call to CreateOrder where the customer
    id resolves and product_ids contains a repeated id, even when every
    id of the list resolves to a product, the mutation returns order =
    null with errors = ["Some product IDs are invalid"]: the store
    resolves the ids to pairwise distinct products, fewer than the raw
    length of the list.  Both schema files do so, and neither writes.
    Consequently an order that is created has pairwise distinct product
    ids, and its total counts the price of each of them once. *)
Theorem CreateOrder_repeated_id now cid ids date st :
  (is_Some (customers st !! cid) → ¬ NoDup ids →
   Schema.CreateOrder_mutate now cid ids date st
   = (Ok {| co_order := None; co_errors := ["Some product IDs are invalid"] |},
      st, [Read TCustomer; Read TProduct])
   ∧ CrmSchema.CreateOrder_mutate now cid ids date st
     = (Ok {| co_order := None; co_errors := ["Some product IDs are invalid"] |},
        st, [Read TCustomer; Read TProduct])
   ∧ NoDup (omap pk (products_with_ids st ids))
   ∧ length (products_with_ids st ids) < length ids)
  ∧ (∀ p o, result (Schema.CreateOrder_mutate now cid ids date st) = Ok p →
            co_order p = Some o →
            NoDup ids
            ∧ (total_amount (fields o) == sum_of_prices st ids)%Q).
Proof.
  split.
  - intros [f Hf] Hdup.
    pose proof (repeated_id_resolves_short st ids Hdup) as Hlt.
    assert (Schema.CreateOrder_mutate now cid ids date st
            = (Ok {| co_order := None;
                     co_errors := ["Some product IDs are invalid"] |},
               st, [Read TCustomer; Read TProduct])) as Hs.
    { rewrite Schema_CreateOrder_unfold, Hf.
      destruct ids as [|i ids]; [by destruct Hdup; constructor|].
      case_decide; [lia|done]. }
    split; [done|]. split.
    + rewrite CrmSchema_CreateOrder_gates; [done|]. right; right. lia.
    + split; [|done]. rewrite products_with_ids_pks. apply matching_keys_NoDup.
  - intros p o. rewrite Schema_CreateOrder_unfold.
    destruct (customers st !! cid); [|by intros [= <-]].
    destruct ids as [|i ids]; [by intros [= <-]|].
    case_decide as Hlen; [|by intros [= <-]].
    intros [= <-] [= <-]. apply resolved_count_eq in Hlen as [Hnd Hall].
    split; [done|]. cbn [placed_order fields total_amount].
    rewrite sum_prices_resolved.
    by apply sum_of_prices_perm, matching_keys_perm.
Qed.

Lemma CreateOrder_repeated_id_witness :
  Schema.CreateOrder_mutate 0 1 [1; 1] None seeded
  = (Ok {| co_order := None; co_errors := ["Some product IDs are invalid"] |},
     seeded, [Read TCustomer; Read TProduct])
  ∧ CrmSchema.CreateOrder_mutate 0 1 [1; 1] None seeded
    = (Ok {| co_order := None; co_errors := ["Some product IDs are invalid"] |},
       seeded, [Read TCustomer; Read TProduct])
  ∧ NoDup (omap pk (products_with_ids seeded [1; 1]))
  ∧ length (products_with_ids seeded [1; 1]) < length [1; 1].
Proof.
  apply (CreateOrder_repeated_id 0 1 [1; 1] None seeded).
  - eexists. vm_compute. reflexivity.
  - intros Hnd. apply NoDup_cons_1_1 in Hnd. apply Hnd. by left.
Defined.

(** With a customer id that does not resolve, a list with a repeated id
    is not looked at: the customer gate reports first. *)
Lemma CreateOrder_repeated_id_unknown_customer :
  customers seeded !! 7 = None
  ∧ ¬ NoDup [1; 1]
  ∧ Schema.CreateOrder_mutate 0 7 [1; 1] None seeded
    = (Ok {| co_order := None; co_errors := ["Invalid customer ID"] |},
       seeded, [Read TCustomer]).
Proof.
  split; [vm_compute; reflexivity|]. split; [|vm_compute; reflexivity].
  intros Hnd. apply NoDup_cons_1_1 in Hnd. apply Hnd. by left.
Qed.

(** C1 (as amended) — For every call CreateOrder(customer_id,
    product_ids, order_date?) where customer_id resolves and product_ids
    is a non-empty list of pairwise distinct ids that each resolve to a
    product, the mutation returns a new, persisted order with errors =
    [], for the requested customer, dated order_date or else the current
    time, whose total_amount is the exact sum of the current prices of
    the requested products and whose product set is the set of the
    requested products. *)
Theorem CreateOrder_valid now cid ids date st :
  is_Some (customers st !! cid) →
  ids ≠ [] →
  NoDup ids →
  Forall (fun i => is_Some (products st !! i)) ids →
  ∃ o oid,
    result (Schema.CreateOrder_mutate now cid ids date st)
    = Ok {| co_order := Some o; co_errors := [] |}
    ∧ pk o = Some oid
    ∧ (total_amount (fields o) == sum_of_prices st ids)%Q
    ∧ customer_id (fields o) = Some cid
    ∧ order_date (fields o) = default now date
    ∧ orders st !! oid = None
    ∧ orders (store_after (Schema.CreateOrder_mutate now cid ids date st)) !! oid
      = Some (fields o)
    ∧ order_products (store_after (Schema.CreateOrder_mutate now cid ids date st))
        !! oid
      = Some (list_to_set ids).
Proof.
  intros [f Hf] Hne Hnd Hall.
  exists (placed_order now st cid ids date), (next_id (orders st)).
  rewrite Schema_CreateOrder_unfold, Hf.
  destruct ids as [|i ids]; [done|].
  case_decide as Hlen; [|by destruct Hlen; apply resolved_count_eq].
  split; [done|]. split; [done|]. split.
  { cbn [placed_order fields total_amount]. rewrite sum_prices_resolved.
    by apply sum_of_prices_perm, matching_keys_perm. }
  split; [done|]. split; [done|]. split; [apply next_id_fresh|].
  unfold store_after, store_with_order. cbn [fst snd orders order_products].
  rewrite !lookup_insert_eq. split; [done|].
  f_equal. by apply list_to_set_perm_L, matching_keys_perm.
Qed.

Lemma CreateOrder_valid_witness :
  ∃ o oid,
    result (Schema.CreateOrder_mutate 5 1 [2; 1] None seeded)
    = Ok {| co_order := Some o; co_errors := [] |}
    ∧ pk o = Some oid
    ∧ Qeq (total_amount (fields o)) (sum_of_prices seeded [2; 1])
    ∧ customer_id (fields o) = Some 1
    ∧ order_date (fields o) = default 5%Z None
    ∧ orders seeded !! oid = None
    ∧ orders (store_after (Schema.CreateOrder_mutate 5 1 [2; 1] None seeded))
        !! oid
      = Some (fields o)
    ∧ order_products
        (store_after (Schema.CreateOrder_mutate 5 1 [2; 1] None seeded)) !! oid
      = Some (list_to_set [2; 1]).
Proof.
  apply (CreateOrder_valid 5 1 [2; 1] None seeded).
  - eexists. vm_compute. reflexivity.
  - discriminate.
  - apply (bool_decide_unpack _). vm_compute. exact I.
  - repeat constructor; eexists; vm_compute; reflexivity.
Defined.

(** A valid customer and a non-empty list of ids that each resolve, one
    of them twice: no order is created. *)
Lemma CreateOrder_valid_ids_repeated :
  is_Some (customers seeded !! 1)
  ∧ Forall (fun i => is_Some (products seeded !! i)) [1; 1]
  ∧ Schema.CreateOrder_mutate 0 1 [1; 1] None seeded
    = (Ok {| co_order := None;
             co_errors := ["Some product IDs are invalid"] |},
       seeded, [Read TCustomer; Read TProduct]).
Proof.
  split; [eexists; vm_compute; reflexivity|].
  split; [repeat constructor; eexists; vm_compute; reflexivity|].
  vm_compute. reflexivity.
Qed.

(** ** The phone pattern *)

Lemma star_class (p : ascii -> bool) (k : string -> bool) :
  ∀ fuel bol s, (String.length s ≤ fuel)%nat →
  star fuel (rmatch (Class p)) bol s (fun _ s' => k s') = class_star p s k.
Proof.
  induction fuel as [|fuel IH]; intros bol s Hlen.
  - destruct s; [done|simpl in Hlen; lia].
  - destruct s as [|c s]; [done|]. simpl in Hlen.
    transitivity
      (p c && ((String.length s <? S (String.length s))%nat
               && star fuel (rmatch (Class p)) false s (fun _ s' => k s'))
       || k (String c s)); [reflexivity|].
    rewrite IH by lia.
    replace (String.length s <? S (String.length s))%nat with true
      by (symmetry; apply Nat.ltb_lt; lia).
    reflexivity.
Qed.

Lemma class_star_eol (s : string) :
  class_star is_digit_or_hyphen s (fun s' => at_eol s' && true)
  = all_chars is_digit_or_hyphen (chomp s).
Proof.
  induction s as [|c s IH]; [done|].
  cbn [class_star]. rewrite IH. destruct s as [|c' s].
  - cbn. destruct (Ascii.eqb_spec c newline) as [->|_]; [done|].
    cbn. by destruct (is_digit_or_hyphen c).
  - change (chomp (String c (String c' s))) with (String c (chomp (String c' s))).
    cbn [at_eol all_chars andb]. by rewrite orb_false_r.
Qed.

Lemma times_class_eol (n : nat) :
  ∀ bol s,
  times n (rmatch (Class is_digit_or_hyphen)) bol s
    (fun _ s' => class_star is_digit_or_hyphen s' (fun s'' => at_eol s'' && true))
  = all_chars is_digit_or_hyphen (chomp s) && (n <=? String.length (chomp s))%nat.
Proof.
  induction n as [|n IH]; intros bol s.
  - cbn [times]. rewrite class_star_eol. by rewrite andb_true_r.
  - destruct s as [|c s]; [done|].
    transitivity
      (is_digit_or_hyphen c
       && times n (rmatch (Class is_digit_or_hyphen)) false s
            (fun _ s' =>
               class_star is_digit_or_hyphen s' (fun s'' => at_eol s'' && true)));
      [reflexivity|].
    rewrite IH. destruct s as [|c' s].
    + cbn. destruct (Ascii.eqb_spec c newline) as [->|_]; [done|].
      cbn. by rewrite !andb_true_r.
    + change (chomp (String c (String c' s)))
        with (String c (chomp (String c' s))).
      cbn [all_chars String.length]. by rewrite andb_assoc.
Qed.

Lemma times_class_ext (p : ascii -> bool) (k1 k2 : bool -> string -> bool) :
  (∀ bol s, k1 bol s = k2 bol s) →
  ∀ n bol s,
  times n (rmatch (Class p)) bol s k1 = times n (rmatch (Class p)) bol s k2.
Proof.
  intros Hk. induction n as [|n IH]; intros bol s; [apply Hk|].
  destruct s as [|c s]; [done|].
  change (p c && times n (rmatch (Class p)) false s k1
          = p c && times n (rmatch (Class p)) false s k2).
  by rewrite IH.
Qed.

(** What follows the optional [+]. *)
Lemma digit_tail_match (bol : bool) (s : string) :
  rmatch (Cat (Class is_digit) (Cat (AtLeast 7 (Class is_digit_or_hyphen)) Eol))
    bol s (fun _ _ => true)
  = digit_then_seven (chomp s).
Proof.
  destruct s as [|d s]; [done|].
  transitivity
    (is_digit d
     && times 7 (rmatch (Class is_digit_or_hyphen)) false s
          (fun bol' s' =>
             star (String.length s') (rmatch (Class is_digit_or_hyphen)) bol' s'
               (fun _ s'' => at_eol s'' && true))); [reflexivity|].
  rewrite (times_class_ext _ _
             (fun _ s' =>
                class_star is_digit_or_hyphen s' (fun s'' => at_eol s'' && true)))
    by (intros; by apply star_class).
  rewrite times_class_eol. destruct s as [|c s].
  - cbn. destruct (Ascii.eqb_spec d newline) as [->|_]; [done|].
    cbn. by rewrite !andb_false_r.
  - change (chomp (String d (String c s))) with (String d (chomp (String c s))).
    reflexivity.
Qed.

Lemma strip_plus_chomp (c : ascii) (s : string) :
  is_plus c = false →
  strip_plus (chomp (String c s)) = chomp (String c s).
Proof.
  intros Hc. destruct s as [|c' s].
  - cbn. destruct (Ascii.eqb c newline); [done|]. cbn. by rewrite Hc.
  - change (chomp (String c (String c' s))) with (String c (chomp (String c' s))).
    cbn. by rewrite Hc.
Qed.

Lemma all_chars_newline (s : string) :
  all_chars is_digit_or_hyphen (s +:+ String newline EmptyString) = false.
Proof.
  induction s as [|c s IH]; [done|].
  change (is_digit_or_hyphen c
          && all_chars is_digit_or_hyphen (s +:+ String newline EmptyString)
          = false).
  rewrite IH. apply andb_false_r.
Qed.

Lemma digit_then_seven_newline (s : string) :
  digit_then_seven (s +:+ String newline EmptyString) = false.
Proof.
  destruct s as [|d s]; [done|].
  change (is_digit d
          && (all_chars is_digit_or_hyphen (s +:+ String newline EmptyString)
              && (7 <=? String.length (s +:+ String newline EmptyString))%nat)
          = false).
  rewrite all_chars_newline. apply andb_false_r.
Qed.

(** A string that ends in a newline is not of the described shape. *)
Lemma phone_format_spec_newline (s : string) :
  phone_format_spec (s +:+ String newline EmptyString) = false.
Proof.
  unfold phone_format_spec. destruct s as [|c s]; [done|].
  change (digit_then_seven
            (if is_plus c then s +:+ String newline EmptyString
             else String c s +:+ String newline EmptyString) = false).
  destruct (is_plus c); apply digit_then_seven_newline.
Qed.

(** [chomp] removes a final newline and nothing else. *)
Lemma chomp_cases (s : string) :
  (∃ s', s = s' +:+ String newline EmptyString ∧ chomp s = s')
  ∨ (chomp s = s ∧ ∀ s', s ≠ s' +:+ String newline EmptyString).
Proof.
  induction s as [|c s IH].
  - right. split; [done|]. by intros [|? ?].
  - destruct s as [|c' s].
    + cbn [chomp]. destruct (Ascii.eqb_spec c newline) as [->|Hc].
      * left. by exists EmptyString.
      * right. split; [done|].
        intros [|c1 [|c2 s1]] Hs; unfold String.append in Hs; congruence.
    + change (chomp (String c (String c' s)))
        with (String c (chomp (String c' s))).
      destruct IH as [(s' & Hs & ->)|[-> Hno]].
      * left. exists (String c s'). split; [|done].
        change (String c (String c' s)
                = String c (s' +:+ String newline EmptyString)).
        by rewrite <- Hs.
      * right. split; [done|]. intros [|c1 s1] Hs.
        { unfold String.append in Hs. congruence. }
        change (String c (String c' s)
                = String c1 (s1 +:+ String newline EmptyString)) in Hs.
        injection Hs as -> Hs. by apply (Hno s1).
Qed.

(** The accepted shape in full: the described shape, or the described
    shape followed by one newline. *)
Lemma phone_format_spec_chomp (s : string) :
  phone_format_spec (chomp s) = true
  ↔ phone_format_spec s = true
    ∨ ∃ s', s = s' +:+ String newline EmptyString
            ∧ phone_format_spec s' = true.
Proof.
  destruct (chomp_cases s) as [(s' & -> & ->)|[-> Hno]].
  - rewrite phone_format_spec_newline. split; [by right; exists s'|].
    intros [?|(s'' & Heq & Hs'')]; [done|].
    assert (s' = s'') as ->; [|done].
    clear -Heq. revert s'' Heq.
    induction s' as [|c s' IH]; intros [|c' s''] Heq; [done| | |].
    + unfold String.append in Heq. fold String.append in Heq.
      injection Heq as _ Heq. destruct s''; unfold String.append in Heq;
        discriminate.
    + unfold String.append in Heq. fold String.append in Heq.
      injection Heq as _ Heq. destruct s'; unfold String.append in Heq;
        discriminate.
    + change (String c (s' +:+ String newline EmptyString)
              = String c' (s'' +:+ String newline EmptyString)) in Heq.
      injection Heq as -> Heq. f_equal. by apply IH.
  - split; [by left|]. intros [?|(s' & Hs & _)]; [done|]. by destruct (Hno s').
Qed.

(** [re.match] of the phone pattern accepts the described shape, before
    the end of the string or a final newline. *)
Lemma phone_pattern_match (s : string) :
  re_match phone_pattern s = phone_format_spec (chomp s).
Proof.
  unfold re_match, phone_pattern, phone_format_spec.
  destruct s as [|c s]; [done|].
  transitivity
    ((is_plus c
      && rmatch (Cat (Class is_digit)
                   (Cat (AtLeast 7 (Class is_digit_or_hyphen)) Eol))
           false s (fun _ _ => true))
     || rmatch (Cat (Class is_digit)
                  (Cat (AtLeast 7 (Class is_digit_or_hyphen)) Eol))
          true (String c s) (fun _ _ => true)); [reflexivity|].
  rewrite !digit_tail_match. destruct (is_plus c) eqn:Hc.
  - apply Ascii.eqb_eq in Hc as ->. cbn [andb].
    destruct s as [|c' s]; [done|].
    change (chomp (String "+" (String c' s)))
      with (String "+"%char (chomp (String c' s))).
    cbn [strip_plus]. change (is_plus "+") with true. cbn iota.
    change (digit_then_seven (String "+" (chomp (String c' s)))) with false.
    by rewrite orb_false_r.
  - cbn [andb orb]. by rewrite strip_plus_chomp.
Qed.

(** ** CreateCustomer and CreateProduct, unfolded *)

Lemma Schema_phone_rejected (phone : option string) (st : Store) :
  phone_rejected Schema.globals phone st
  = (Ok (negb (phone_accepted phone)), st, []).
Proof.
  destruct phone as [[|c s]|]; [done| |done].
  unfold phone_rejected, phone_accepted. cbn [truthy default].
  rewrite <- phone_pattern_match. reflexivity.
Qed.

Lemma Schema_CreateCustomer_unfold now name e phone st :
  Schema.CreateCustomer_mutate now name e phone st =
  if nonempty (customer_errors st e phone) then
    (Ok {| cc_customer := None; cc_message := "Validation failed";
           cc_errors := customer_errors st e phone |},
     st, [Read TCustomer])
  else
    (Ok {| cc_customer :=
             Some {| pk := Some (next_id (customers st));
                     fields := {| name := name; email := e; phone := phone;
                                  created_at := now |} |};
           cc_message := "Customer created successfully";
           cc_errors := [] |},
     add_customer st {| name := name; email := e; phone := phone;
                        created_at := now |},
     [Read TCustomer; Write TCustomer]).
Proof.
  unfold Schema.CreateCustomer_mutate, customer_errors, Customer_objects_filter_exists.
  unfold_M.
  rewrite Schema_phone_rejected.
  destruct (email_in_use st e), (phone_accepted phone); reflexivity.
Qed.

Lemma Schema_CreateProduct_unfold pname price stock st :
  Schema.CreateProduct_mutate pname price stock st =
  if nonempty (product_errors price stock) then
    (Ok {| cp_product := None; cp_errors := product_errors price stock |},
     st, [])
  else
    (Ok {| cp_product :=
             Some {| pk := Some (next_id (products st));
                     fields := {| product_name := pname; price := price;
                                  stock := stock |} |};
           cp_errors := [] |},
     {| customers := customers st;
        products := <[next_id (products st) :=
                        {| product_name := pname; price := price;
                           stock := stock |}]> (products st);
        orders := orders st; order_products := order_products st |},
     [Write TProduct]).
Proof.
  unfold Schema.CreateProduct_mutate, product_errors.
  destruct (Qle_bool price 0), (stock <? 0)%Z; reflexivity.
Qed.

(** ** CreateCustomer and CreateProduct *)

(** C4 — For every store and every email that a stored customer
    already has, CreateCustomer with that email returns customer = null
    with the message "Validation failed" and an errors list that
    contains "Email already exists", and the store is unchanged. *)
Theorem CreateCustomer_email_taken now name e phone st :
  email_taken st e →
  ∃ errors,
    Schema.CreateCustomer_mutate now name e phone st
    = (Ok {| cc_customer := None; cc_message := "Validation failed";
             cc_errors := errors |},
       st, [Read TCustomer])
    ∧ "Email already exists" ∈ errors.
Proof.
  intros He%email_in_use_true. exists (customer_errors st e phone).
  rewrite Schema_CreateCustomer_unfold. unfold customer_errors. rewrite He.
  split; [done|]. by left.
Qed.

Lemma CreateCustomer_email_taken_witness :
  ∃ errors,
    Schema.CreateCustomer_mutate 9 "Alice B" "alice@example.com" None seeded
    = (Ok {| cc_customer := None; cc_message := "Validation failed";
             cc_errors := errors |},
       seeded, [Read TCustomer])
    ∧ "Email already exists" ∈ errors.
Proof.
  apply (CreateCustomer_email_taken 9 "Alice B" "alice@example.com" None seeded).
  exists 1, {| name := "Alice"; email := "alice@example.com";
               phone := Some "+1234567890"; created_at := 0 |}.
  split; vm_compute; reflexivity.
Defined.

(** C5 — CreateCustomer and CreateProduct run every field check and
    append every violation in check order: the errors of CreateCustomer
    are the email message, if the email is taken, followed by the phone
    message, if the phone is not accepted; the errors of CreateProduct
    are the price message, if price <= 0, followed by the stock message,
    if stock < 0; with any error the entity is null and the store is
    unchanged.  A taken email with the phone "12345" gives both customer
    messages, the email one first, and CreateProduct(price=-5, stock=-1)
    gives product = null with both product messages. *)
Theorem validation_collects_every_error now name e phone pname price stock st :
  (∃ p st' ops,
     Schema.CreateCustomer_mutate now name e phone st = (Ok p, st', ops)
     ∧ cc_errors p
       = (if email_in_use st e then ["Email already exists"] else [])
         ++ (if phone_accepted phone then []
             else ["Invalid phone format (use +1234567890 or 123-456-7890)"])
     ∧ (cc_errors p ≠ [] → cc_customer p = None ∧ st' = st))
  ∧ (∃ p st' ops,
       Schema.CreateProduct_mutate pname price stock st = (Ok p, st', ops)
       ∧ cp_errors p
         = (if Qle_bool price 0 then ["Price must be positive"] else [])
           ++ (if (stock <? 0)%Z then ["Stock cannot be negative"] else [])
       ∧ (cp_errors p ≠ [] → cp_product p = None ∧ st' = st))
  ∧ result (Schema.CreateCustomer_mutate now name "alice@example.com"
              (Some "12345") seeded)
    = Ok {| cc_customer := None; cc_message := "Validation failed";
            cc_errors :=
              ["Email already exists";
               "Invalid phone format (use +1234567890 or 123-456-7890)"] |}
  ∧ result (Schema.CreateProduct_mutate pname (-5) (-1) st)
    = Ok {| cp_product := None;
            cp_errors := ["Price must be positive";
                          "Stock cannot be negative"] |}.
Proof.
  split; [|split; [|split]].
  - rewrite Schema_CreateCustomer_unfold. fold (customer_errors st e phone).
    destruct (nonempty (customer_errors st e phone)) eqn:Hn;
      eexists _, _, _; (split; [reflexivity|]); split; try done.
    cbn [cc_errors]. by destruct (customer_errors st e phone).
  - rewrite Schema_CreateProduct_unfold. fold (product_errors price stock).
    destruct (nonempty (product_errors price stock)) eqn:Hn;
      eexists _, _, _; (split; [reflexivity|]); split; try done.
    cbn [cp_errors]. by destruct (product_errors price stock).
  - rewrite Schema_CreateCustomer_unfold. vm_compute. reflexivity.
  - rewrite Schema_CreateProduct_unfold. reflexivity.
Qed.

Lemma Schema_bulk_row_unfold now data st :
  Schema.bulk_row now data st =
  match row_violation st data with
  | Some msg =>
      (Raise (ValueError msg), st, [Read TCustomer])
  | None =>
      (Ok {| pk := Some (next_id (customers st));
             fields := row_fields now data |},
       add_customer st (row_fields now data),
       [Read TCustomer; Write TCustomer])
  end.
Proof.
  unfold Schema.bulk_row, row_violation, Customer_objects_filter_exists. unfold_M.
  destruct (email_in_use st (in_email data)); [done|].
  rewrite Schema_phone_rejected.
  destruct (phone_accepted (in_phone data)); reflexivity.
Qed.

(** C7 (as amended) — The phone check of CreateCustomer, and of each
    BulkCreateCustomers row, accepts an absent or empty phone and
    otherwise accepts the phone if and only if it is an optional leading
    +, one digit, then at least 7 more digits or hyphens, followed by
    nothing or by one final newline.  A phone that is not accepted gets
    the phone-format message; "12345" is rejected and "+1234567890" is
    accepted. *)
Theorem phone_check_accepts now name e phone st :
  phone_accepted None = true
  ∧ phone_accepted (Some EmptyString) = true
  ∧ (∀ s, s ≠ EmptyString →
       (phone_accepted (Some s) = true
        ↔ phone_format_spec s = true
          ∨ ∃ s', s = s' +:+ String newline EmptyString
                  ∧ phone_format_spec s' = true))
  ∧ (∃ p, result (Schema.CreateCustomer_mutate now name e phone st) = Ok p
          ∧ ("Invalid phone format (use +1234567890 or 123-456-7890)"
               ∈ cc_errors p
             ↔ phone_accepted phone = false))
  ∧ (¬ email_taken st e →
     (result (Schema.bulk_row now
                {| in_name := name; in_email := e; in_phone := phone |} st)
      = Raise (ValueError ("Invalid phone format for " +:+ e))
      ↔ phone_accepted phone = false))
  ∧ phone_accepted (Some "12345") = false
  ∧ phone_accepted (Some "+1234567890") = true
  ∧ (phone = Some "12345" → ¬ email_taken st e →
     Schema.CreateCustomer_mutate now name e phone st
     = (Ok {| cc_customer := None; cc_message := "Validation failed";
              cc_errors :=
                ["Invalid phone format (use +1234567890 or 123-456-7890)"] |},
        st, [Read TCustomer]))
  ∧ (phone = Some "+1234567890" → ¬ email_taken st e →
     ∃ c, result (Schema.CreateCustomer_mutate now name e phone st)
          = Ok {| cc_customer := Some c;
                  cc_message := "Customer created successfully";
                  cc_errors := [] |}
          ∧ fields c = {| name := name; email := e; phone := phone;
                          created_at := now |}).
Proof.
  split; [done|]. split; [done|]. split.
  { intros [|c s] Hs; [done|]. apply phone_format_spec_chomp. }
  split.
  { rewrite Schema_CreateCustomer_unfold. unfold customer_errors.
    destruct (email_in_use st e), (phone_accepted phone);
      eexists; (split; [reflexivity|]); cbn [cc_errors app];
      (split; [|intros Hp]); try done.
    - by intros [=]%list_elem_of_singleton.
    - by right; left.
    - by intros ?%not_elem_of_nil.
    - by left. }
  split.
  { intros He%email_in_use_false. rewrite Schema_bulk_row_unfold.
    unfold row_violation. cbn [in_email in_phone]. rewrite He.
    by destruct (phone_accepted phone). }
  split; [done|]. split; [done|]. split.
  - intros -> He%email_in_use_false. rewrite Schema_CreateCustomer_unfold.
    unfold customer_errors. by rewrite He.
  - intros -> He%email_in_use_false. rewrite Schema_CreateCustomer_unfold.
    unfold customer_errors. rewrite He. eexists. by split.
Qed.

Lemma phone_check_accepts_witness :
  Schema.CreateCustomer_mutate 0 "Carol" "carol@example.com" (Some "12345") seeded
  = (Ok {| cc_customer := None; cc_message := "Validation failed";
           cc_errors :=
             ["Invalid phone format (use +1234567890 or 123-456-7890)"] |},
     seeded, [Read TCustomer]).
Proof.
  apply (phone_check_accepts 0 "Carol" "carol@example.com" (Some "12345") seeded).
  - reflexivity.
  - apply email_in_use_false. vm_compute. reflexivity.
Defined.

(** A phone of the described shape followed by a newline is not of the
    described shape, and CreateCustomer accepts it. *)
Lemma phone_with_newline_accepted :
  phone_format_spec phone_with_newline = false
  ∧ phone_format_spec "12345678" = true
  ∧ result (Schema.CreateCustomer_mutate 0 "Eve" "eve@example.com"
              (Some phone_with_newline) empty_store)
    = Ok {| cc_customer :=
              Some {| pk := Some 1;
                      fields := {| name := "Eve"; email := "eve@example.com";
                                   phone := Some phone_with_newline;
                                   created_at := 0 |} |};
            cc_message := "Customer created successfully";
            cc_errors := [] |}.
Proof. repeat split; vm_compute; reflexivity. Qed.

(** ** Repeating a failed mutation *)

Lemma repeat_call_fixed {A} (m : M A) (st : Store) (r : Outcome A) :
  result (m st) = r → store_after (m st) = st →
  ∀ n, repeat_call m n st = (replicate n r, st).
Proof.
  intros Hr Hst. induction n as [|n IH]; [done|].
  cbn [repeat_call]. rewrite Hst, IH, Hr. reflexivity.
Qed.

Lemma Schema_CreateCustomer_failed now name e phone st p :
  result (Schema.CreateCustomer_mutate now name e phone st) = Ok p →
  cc_customer p = None →
  store_after (Schema.CreateCustomer_mutate now name e phone st) = st
  ∧ cc_errors p ≠ [].
Proof.
  rewrite Schema_CreateCustomer_unfold.
  destruct (customer_errors st e phone) as [|msg l]; cbn; by intros [= <-].
Qed.

Lemma Schema_CreateProduct_failed pname price stock st p :
  result (Schema.CreateProduct_mutate pname price stock st) = Ok p →
  cp_product p = None →
  store_after (Schema.CreateProduct_mutate pname price stock st) = st
  ∧ cp_errors p ≠ [].
Proof.
  rewrite Schema_CreateProduct_unfold.
  destruct (product_errors price stock) as [|msg l]; cbn; by intros [= <-].
Qed.

Lemma Schema_CreateOrder_failed now cid ids date st p :
  result (Schema.CreateOrder_mutate now cid ids date st) = Ok p →
  co_order p = None →
  store_after (Schema.CreateOrder_mutate now cid ids date st) = st
  ∧ co_errors p ≠ [].
Proof.
  rewrite Schema_CreateOrder_unfold.
  destruct (customers st !! cid); [|by intros [= <-]].
  destruct ids; [by intros [= <-]|].
  case_decide; by intros [= <-].
Qed.

(** C8 — A failed validation is idempotent.  When CreateCustomer,
    CreateProduct or CreateOrder returns a null entity, its errors are
    not empty, and any number [n] of repetitions of the same call from
    the same store returns the same payload, with the same errors, each
    time and leaves the store as it was: no record is created. *)
Theorem failed_mutation_idempotent now st n :
  (∀ name e phone p,
     result (Schema.CreateCustomer_mutate now name e phone st) = Ok p →
     cc_customer p = None →
     cc_errors p ≠ []
     ∧ repeat_call (Schema.CreateCustomer_mutate now name e phone) n st
       = (replicate n (Ok p), st))
  ∧ (∀ pname price stock p,
       result (Schema.CreateProduct_mutate pname price stock st) = Ok p →
       cp_product p = None →
       cp_errors p ≠ []
       ∧ repeat_call (Schema.CreateProduct_mutate pname price stock) n st
         = (replicate n (Ok p), st))
  ∧ (∀ cid ids date p,
       result (Schema.CreateOrder_mutate now cid ids date st) = Ok p →
       co_order p = None →
       co_errors p ≠ []
       ∧ repeat_call (Schema.CreateOrder_mutate now cid ids date) n st
         = (replicate n (Ok p), st)).
Proof.
  split; [|split].
  - intros name e phone p Hr Hn.
    destruct (Schema_CreateCustomer_failed _ _ _ _ _ _ Hr Hn) as [Hst He].
    split; [done|]. by apply repeat_call_fixed.
  - intros pname price stock p Hr Hn.
    destruct (Schema_CreateProduct_failed _ _ _ _ _ Hr Hn) as [Hst He].
    split; [done|]. by apply repeat_call_fixed.
  - intros cid ids date p Hr Hn.
    destruct (Schema_CreateOrder_failed _ _ _ _ _ _ Hr Hn) as [Hst He].
    split; [done|]. by apply repeat_call_fixed.
Qed.

Lemma failed_mutation_idempotent_witness :
  repeat_call
    (Schema.CreateCustomer_mutate 0 "Al" "alice@example.com" (Some "12345"))
    3 seeded
  = (replicate 3
       (Ok {| cc_customer := None; cc_message := "Validation failed";
              cc_errors :=
                ["Email already exists";
                 "Invalid phone format (use +1234567890 or 123-456-7890)"] |}),
     seeded)
  ∧ repeat_call (Schema.CreateProduct_mutate "Pen" (-5) (-1)) 3 seeded
    = (replicate 3
         (Ok {| cp_product := None;
                cp_errors := ["Price must be positive";
                              "Stock cannot be negative"] |}),
       seeded)
  ∧ repeat_call (Schema.CreateOrder_mutate 0 1 [1; 9] None) 3 seeded
    = (replicate 3
         (Ok {| co_order := None;
                co_errors := ["Some product IDs are invalid"] |}),
       seeded).
Proof.
  split; [|split].
  - apply (failed_mutation_idempotent 0 seeded 3);
      [vm_compute; reflexivity|reflexivity].
  - apply (failed_mutation_idempotent 0 seeded 3); reflexivity.
  - apply (failed_mutation_idempotent 0 seeded 3);
      [vm_compute; reflexivity|reflexivity].
Defined.

(** ** BulkCreateCustomers *)

Lemma Schema_bulk_loop_spec now :
  ∀ input i st created errors,
  ∃ ops,
    Schema.bulk_loop now i input created errors st
    = (Ok {| bc_customers := created ++ (bulk_spec now i input st).1.1;
             bc_errors := errors ++ (bulk_spec now i input st).1.2 |},
       (bulk_spec now i input st).2, ops).
Proof.
  induction input as [|data rest IH]; intros i st created errors.
  - exists []. cbn. by rewrite !app_nil_r.
  - cbn [Schema.bulk_loop bulk_spec]. unfold_M.
    rewrite Schema_bulk_row_unfold, Nat.add_1_r.
    destruct (row_violation st data) as [msg|]; cbn [str_exn].
    + destruct (IH (S i) st created
                  (errors ++ ["Row " +:+ str_of_nat (S i) +:+ ": " +:+ msg]))
        as [ops ->].
      destruct (bulk_spec now (S i) rest st) as [[cs es] st2].
      eexists. cbn. by rewrite <- app_assoc.
    + destruct (IH (S i) (add_customer st (row_fields now data))
                  (created ++ [{| pk := Some (next_id (customers st));
                                  fields := row_fields now data |}]) errors)
        as [ops ->].
      destruct (bulk_spec now (S i) rest (add_customer st (row_fields now data)))
        as [[cs es] st2].
      eexists. cbn. by rewrite <- app_assoc.
Qed.

Lemma bulk_spec_cons now i data rest st :
  bulk_spec now i (data :: rest) st =
  match row_violation st data with
  | Some msg =>
      (bulk_created now (S i) rest st,
       ("Row " +:+ str_of_nat (S i) +:+ ": " +:+ msg)
         :: bulk_errors now (S i) rest st,
       bulk_store now (S i) rest st)
  | None =>
      ({| pk := Some (next_id (customers st)); fields := row_fields now data |}
         :: bulk_created now (S i) rest (add_customer st (row_fields now data)),
       bulk_errors now (S i) rest (add_customer st (row_fields now data)),
       bulk_store now (S i) rest (add_customer st (row_fields now data)))
  end.
Proof.
  unfold bulk_created, bulk_errors, bulk_store. cbn [bulk_spec].
  destruct (row_violation st data).
  - by destruct (bulk_spec now (S i) rest st) as [[? ?] ?].
  - by destruct (bulk_spec now (S i) rest (add_customer st (row_fields now data)))
      as [[? ?] ?].
Qed.

(** The rows before a row and the rows after it are processed as if the
    batch were cut there. *)
Lemma bulk_spec_app now :
  ∀ before after i st,
  bulk_spec now i (before ++ after) st
  = (bulk_created now i before st
       ++ bulk_created now (i + length before) after (bulk_store now i before st),
     bulk_errors now i before st
       ++ bulk_errors now (i + length before) after (bulk_store now i before st),
     bulk_store now (i + length before) after (bulk_store now i before st)).
Proof.
  induction before as [|data before IH]; intros after i st.
  - cbn [app length]. rewrite Nat.add_0_r. unfold bulk_created, bulk_errors,
      bulk_store. cbn. by destruct (bulk_spec now i after st) as [[? ?] ?].
  - cbn [app length]. rewrite bulk_spec_cons.
    unfold bulk_created, bulk_errors, bulk_store. rewrite bulk_spec_cons.
    replace (i + S (length before)) with (S i + length before) by lia.
    destruct (row_violation st data); rewrite IH; reflexivity.
Qed.

Lemma bulk_spec_cut now before data after st :
  bulk_spec now 0 (before ++ data :: after) st =
  match row_violation (bulk_store now 0 before st) data with
  | Some msg =>
      (bulk_created now 0 before st
         ++ bulk_created now (S (length before)) after
              (bulk_store now 0 before st),
       bulk_errors now 0 before st
         ++ ("Row " +:+ str_of_nat (S (length before)) +:+ ": " +:+ msg)
         :: bulk_errors now (S (length before)) after
              (bulk_store now 0 before st),
       bulk_store now (S (length before)) after (bulk_store now 0 before st))
  | None =>
      (bulk_created now 0 before st
         ++ {| pk := Some (next_id (customers (bulk_store now 0 before st)));
               fields := row_fields now data |}
         :: bulk_created now (S (length before)) after
              (add_customer (bulk_store now 0 before st) (row_fields now data)),
       bulk_errors now 0 before st
         ++ bulk_errors now (S (length before)) after
              (add_customer (bulk_store now 0 before st) (row_fields now data)),
       bulk_store now (S (length before)) after
         (add_customer (bulk_store now 0 before st) (row_fields now data)))
  end.
Proof.
  rewrite bulk_spec_app. cbn [Nat.add].
  pose proof (bulk_spec_cons now (length before) data after
                (bulk_store now 0 before st)) as Hrow.
  destruct (row_violation (bulk_store now 0 before st) data);
    unfold bulk_created, bulk_errors, bulk_store in *; by rewrite Hrow.
Qed.

Lemma bulk_spec_length now :
  ∀ input i st,
  length (bulk_created now i input st) + length (bulk_errors now i input st)
  = length input.
Proof.
  induction input as [|data rest IH]; intros i st; [done|].
  unfold bulk_created, bulk_errors. rewrite bulk_spec_cons.
  destruct (row_violation st data); cbn [fst snd length].
  - rewrite <- (IH (S i) st). lia.
  - rewrite <- (IH (S i) (add_customer st (row_fields now data))). lia.
Qed.

(** A batch only adds customers: it removes or changes no row, and every
    customer it returns is a new row of the store it leaves. *)
Lemma bulk_spec_store now :
  ∀ input i st,
  customers st ⊆ customers (bulk_store now i input st)
  ∧ products (bulk_store now i input st) = products st
  ∧ orders (bulk_store now i input st) = orders st
  ∧ order_products (bulk_store now i input st) = order_products st
  ∧ ∀ c, c ∈ bulk_created now i input st →
         ∃ id, pk c = Some id ∧ customers st !! id = None
               ∧ customers (bulk_store now i input st) !! id = Some (fields c).
Proof.
  induction input as [|data rest IH]; intros i st.
  - repeat split; try done. by intros c ?%not_elem_of_nil.
  - unfold bulk_created, bulk_store. rewrite bulk_spec_cons.
    destruct (row_violation st data); cbn [fst snd]; [apply IH|].
    destruct (IH (S i) (add_customer st (row_fields now data)))
      as (Hsub & Hp & Ho & Hop & Hc).
    assert (customers st ⊆ customers (add_customer st (row_fields now data)))
      as Hadd by apply insert_subseteq, next_id_fresh.
    repeat split; try done.
    + by etrans.
    + intros c [->|Hin]%elem_of_cons.
      * exists (next_id (customers st)). split; [done|].
        split; [apply next_id_fresh|].
        eapply lookup_weaken; [|apply Hsub]. cbn. apply lookup_insert_eq.
      * destruct (Hc c Hin) as (id & Hpk & Hnew & Hin').
        exists id. split; [done|]. split; [|done].
        destruct (customers st !! id) eqn:E; [|done].
        eapply lookup_weaken in E; [|apply Hadd]. congruence.
Qed.

Lemma row_violation_None (st : Store) (data : CustomerInput) :
  row_violation st data = None
  ↔ ¬ email_taken st (in_email data) ∧ phone_accepted (in_phone data) = true.
Proof.
  unfold row_violation. rewrite <- email_in_use_false.
  destruct (email_in_use st (in_email data)); [by split; [|intros [? _]]|].
  destruct (phone_accepted (in_phone data)); by split; [|intros [_ ?]].
Qed.

(** C3 — BulkCreateCustomers validates each row on its own.  The
    mutation returns, for every batch, the customers and the errors of
    the row-by-row reading [bulk_spec], and leaves its store.  For every
    row of the batch, judged against the store that the rows before it
    left: a row whose email already exists or whose phone is not accepted
    adds exactly one error string "Row <1-based index>: <message>",
    placed after the errors of the earlier rows and before those of the
    later rows, and is not persisted; any other row is persisted and its
    customer is placed likewise among the returned customers; the rows
    before and after it are processed all the same.  Every row gives
    either one customer or one error, the batch only adds customers, and
    every returned customer is a new row of the store.  In particular
    rows [ok, duplicate email, ok] give 2 created customers and the one
    error string that starts with "Row 2: ". *)
Theorem BulkCreateCustomers_row_by_row now input st :
  (∃ ops,
     Schema.BulkCreateCustomers_mutate now input st
     = (Ok {| bc_customers := bulk_created now 0 input st;
              bc_errors := bulk_errors now 0 input st |},
        bulk_store now 0 input st, ops))
  ∧ (∀ i, ∃ ops,
       Schema.bulk_loop now i input [] [] st
       = (Ok {| bc_customers := bulk_created now i input st;
                bc_errors := bulk_errors now i input st |},
          bulk_store now i input st, ops))
  ∧ (∀ before data after,
       input = before ++ data :: after →
       match row_violation (bulk_store now 0 before st) data with
       | Some msg =>
           bulk_created now 0 input st
           = bulk_created now 0 before st
               ++ bulk_created now (S (length before)) after
                    (bulk_store now 0 before st)
           ∧ bulk_errors now 0 input st
             = bulk_errors now 0 before st
                 ++ ("Row " +:+ str_of_nat (S (length before)) +:+ ": " +:+ msg)
                 :: bulk_errors now (S (length before)) after
                      (bulk_store now 0 before st)
           ∧ bulk_store now 0 input st
             = bulk_store now (S (length before)) after
                 (bulk_store now 0 before st)
       | None =>
           bulk_created now 0 input st
           = bulk_created now 0 before st
               ++ {| pk := Some (next_id (customers (bulk_store now 0 before st)));
                     fields := row_fields now data |}
               :: bulk_created now (S (length before)) after
                    (add_customer (bulk_store now 0 before st)
                       (row_fields now data))
           ∧ bulk_errors now 0 input st
             = bulk_errors now 0 before st
                 ++ bulk_errors now (S (length before)) after
                      (add_customer (bulk_store now 0 before st)
                         (row_fields now data))
           ∧ bulk_store now 0 input st
             = bulk_store now (S (length before)) after
                 (add_customer (bulk_store now 0 before st)
                    (row_fields now data))
       end)
  ∧ (∀ s data,
       (email_taken s (in_email data) →
        row_violation s data = Some ("Duplicate email: " +:+ in_email data))
       ∧ (¬ email_taken s (in_email data) →
          phone_accepted (in_phone data) = false →
          row_violation s data
          = Some ("Invalid phone format for " +:+ in_email data))
       ∧ (¬ email_taken s (in_email data) →
          phone_accepted (in_phone data) = true →
          row_violation s data = None))
  ∧ length (bulk_created now 0 input st) + length (bulk_errors now 0 input st)
    = length input
  ∧ customers st ⊆ customers (bulk_store now 0 input st)
  ∧ (∀ c, c ∈ bulk_created now 0 input st →
          ∃ id, pk c = Some id ∧ customers st !! id = None
                ∧ customers (bulk_store now 0 input st) !! id = Some (fields c))
  ∧ (∀ r1 r2 r3,
       input = [r1; r2; r3] →
       row_violation st r1 = None →
       email_taken (add_customer st (row_fields now r1)) (in_email r2) →
       row_violation (add_customer st (row_fields now r1)) r3 = None →
       ∃ c1 c3,
         result (Schema.BulkCreateCustomers_mutate now input st)
         = Ok {| bc_customers := [c1; c3];
                 bc_errors := ["Row 2: Duplicate email: " +:+ in_email r2] |}).
Proof.
  assert (∀ i, ∃ ops,
            Schema.bulk_loop now i input [] [] st
            = (Ok {| bc_customers := bulk_created now i input st;
                     bc_errors := bulk_errors now i input st |},
               bulk_store now i input st, ops)) as Hloop.
  { intros i. destruct (Schema_bulk_loop_spec now input i st [] []) as [ops H].
    by exists ops. }
  assert (∃ ops,
            Schema.BulkCreateCustomers_mutate now input st
            = (Ok {| bc_customers := bulk_created now 0 input st;
                     bc_errors := bulk_errors now 0 input st |},
               bulk_store now 0 input st, ops)) as Hrun.
  { destruct (Hloop 0) as [ops H]. exists ops.
    unfold Schema.BulkCreateCustomers_mutate, atomic. by rewrite H. }
  split; [done|]. split; [done|]. split.
  { intros before data after ->.
    pose proof (bulk_spec_cut now before data after st) as Hcut.
    destruct (row_violation (bulk_store now 0 before st) data);
      unfold bulk_created, bulk_errors, bulk_store in *; by rewrite Hcut. }
  split.
  { intros s data. unfold row_violation. repeat split.
    - by intros ->%email_in_use_true.
    - by intros ->%email_in_use_false ->.
    - by intros ->%email_in_use_false ->. }
  split; [apply bulk_spec_length|].
  destruct (bulk_spec_store now input 0 st) as (Hsub & _ & _ & _ & Hc).
  split; [done|]. split; [done|].
  intros r1 r2 r3 -> H1 H2%email_in_use_true H3.
  destruct Hrun as [ops ->]. unfold bulk_created, bulk_errors.
  cbn [bulk_spec]. rewrite H1.
  replace (row_violation (add_customer st (row_fields now r1)) r2)
    with (Some ("Duplicate email: " +:+ in_email r2))
    by (unfold row_violation; by rewrite H2).
  rewrite H3. by eexists _, _.
Qed.

Lemma BulkCreateCustomers_row_by_row_witness :
  ∃ c1 c3,
    result (Schema.BulkCreateCustomers_mutate 0 [carol; alice_again; dave] seeded)
    = Ok {| bc_customers := [c1; c3];
            bc_errors := ["Row 2: Duplicate email: alice@example.com"] |}.
Proof.
  destruct (BulkCreateCustomers_row_by_row 0 [carol; alice_again; dave] seeded)
    as (_ & _ & _ & _ & _ & _ & _ & Hex).
  apply (Hex carol alice_again dave); [reflexivity| | |].
  - vm_compute. reflexivity.
  - apply email_in_use_true. vm_compute. reflexivity.
  - vm_compute. reflexivity.
Defined.

(** ** The two schema files *)

(** The bodies of CreateProduct agree: the second save of
    [crm/schema.py] rewrites the row that [create] inserted. *)
Lemma CrmSchema_CreateProduct_agrees pname price stock st :
  result (CrmSchema.CreateProduct_mutate pname price stock st)
  = result (Schema.CreateProduct_mutate pname price stock st)
  ∧ store_after (CrmSchema.CreateProduct_mutate pname price stock st)
    = store_after (Schema.CreateProduct_mutate pname price stock st).
Proof.
  unfold CrmSchema.CreateProduct_mutate, Schema.CreateProduct_mutate.
  destruct (Qle_bool price 0), (stock <? 0)%Z; try done.
  split; [done|].
  unfold store_after, Product_objects_create, Product_save, new, save_row.
  unfold_M.
  cbn [pk fields fst snd products customers orders order_products nonempty
       append_if].
  by rewrite insert_insert_eq.
Qed.

(** Without a phone, [re] is not looked up, and the bodies of
    CreateCustomer agree. *)
Lemma CrmSchema_CreateCustomer_agrees now name e phone st :
  truthy phone = false →
  result (CrmSchema.CreateCustomer_mutate now name e phone st)
  = result (Schema.CreateCustomer_mutate now name e phone st)
  ∧ store_after (CrmSchema.CreateCustomer_mutate now name e phone st)
    = store_after (Schema.CreateCustomer_mutate now name e phone st).
Proof.
  intros Hp.
  unfold CrmSchema.CreateCustomer_mutate, Schema.CreateCustomer_mutate,
    phone_rejected, Customer_objects_filter_exists, Customer_objects_create,
    Customer_save, new, save_row, store_after, result.
  unfold_M.
  rewrite Hp. destruct (email_in_use st e); [done|].
  cbn [pk fields fst snd products customers orders order_products nonempty
       append_if].
  by rewrite insert_insert_eq.
Qed.

(** With an order date, [timezone] is not looked up, and the bodies of
    CreateOrder agree. *)
Lemma CrmSchema_CreateOrder_agrees now cid ids d st :
  result (CrmSchema.CreateOrder_mutate now cid ids (Some d) st)
  = result (Schema.CreateOrder_mutate now cid ids (Some d) st)
  ∧ store_after (CrmSchema.CreateOrder_mutate now cid ids (Some d) st)
    = store_after (Schema.CreateOrder_mutate now cid ids (Some d) st).
Proof.
  destruct (decide (customers st !! cid = None ∨ ids = []
                    ∨ length (products_with_ids st ids) ≠ length ids))
    as [Hgate|Hok].
  { by rewrite CrmSchema_CreateOrder_gates. }
  unfold CrmSchema.CreateOrder_mutate, Schema.CreateOrder_mutate,
    Customer_objects_get, Product_objects_filter, order_date_or_now,
    Order_objects_create, Order_save, Order_products_set, new, save_row,
    store_after, result.
  unfold_M.
  destruct (customers st !! cid) as [f|]; [|done].
  destruct ids as [|i ids]; [done|].
  cbn [nonempty negb].
  destruct (length (products_with_ids st (i :: ids)) =? length (i :: ids))%nat;
    [|done].
  cbn [negb pk fields fst snd products customers orders order_products].
  by rewrite insert_insert_eq.
Qed.

(** C9 — [crm/schema.py] imports neither [re] nor [transaction] nor
    [timezone].  Executing the file raises NameError at the decorator
    [@transaction.atomic], while [schema.py] loads; and where the body of
    a mutation of [schema.py] creates a customer or an order, the same
    body in [crm/schema.py] raises NameError for [re] or [timezone], or
    reports it as the error of a batch row. *)
Theorem CrmSchema_unbound_names :
  result (Schema.load seeded) = Ok tt
  ∧ result (CrmSchema.load seeded) = Raise (NameError "transaction")
  ∧ cc_message
      <$> returned (Schema.CreateCustomer_mutate 0 "Carol" "carol@example.com"
                      (Some "+1234567891") seeded)
    = Some "Customer created successfully"
  ∧ result (CrmSchema.CreateCustomer_mutate 0 "Carol" "carol@example.com"
              (Some "+1234567891") seeded)
    = Raise (NameError "re")
  ∧ bc_errors <$> returned (Schema.BulkCreateCustomers_mutate 0 [carol] seeded)
    = Some []
  ∧ bc_errors <$> returned (CrmSchema.BulkCreateCustomers_mutate 0 [carol] seeded)
    = Some ["Row 1: name 're' is not defined"]
  ∧ co_errors <$> returned (Schema.CreateOrder_mutate 0 1 [1; 2] None seeded)
    = Some []
  ∧ result (CrmSchema.CreateOrder_mutate 0 1 [1; 2] None seeded)
    = Raise (NameError "timezone").
Proof. repeat split; vm_compute; reflexivity. Qed.

(** * Further properties of the mutations *)

(** ** Creating a customer *)

Lemma customer_errors_nil (st : Store) (e : string) (phone : option string) :
  customer_errors st e phone = []
  ↔ ¬ email_taken st e ∧ phone_accepted phone = true.
Proof.
  unfold customer_errors. rewrite <- email_in_use_false.
  destruct (email_in_use st e), (phone_accepted phone); cbn;
    split; try done; by intros [? ?].
Qed.

(** X1 — CreateCustomer with an email that no customer has and a phone that
    the check accepts creates the customer: it returns the new instance
    with the success message and no error, stores it under an id that
    was free, with the fields given, and leaves every other row as it
    was. *)
Theorem CreateCustomer_created now name e phone st :
  ¬ email_taken st e →
  phone_accepted phone = true →
  ∃ c id,
    Schema.CreateCustomer_mutate now name e phone st
    = (Ok {| cc_customer := Some c;
             cc_message := "Customer created successfully";
             cc_errors := [] |},
       add_customer st (fields c), [Read TCustomer; Write TCustomer])
    ∧ pk c = Some id
    ∧ fields c = {| name := name; email := e; phone := phone;
                    created_at := now |}
    ∧ customers st !! id = None
    ∧ customers (add_customer st (fields c)) !! id = Some (fields c)
    ∧ (∀ j, j ≠ id →
         customers (add_customer st (fields c)) !! j = customers st !! j)
    ∧ email_taken (add_customer st (fields c)) e.
Proof.
  intros He Hp.
  exists {| pk := Some (next_id (customers st));
            fields := {| name := name; email := e; phone := phone;
                         created_at := now |} |}, (next_id (customers st)).
  rewrite Schema_CreateCustomer_unfold.
  replace (customer_errors st e phone) with (@nil string)
    by (symmetry; by apply customer_errors_nil).
  cbn [nonempty]. split; [reflexivity|]. split; [done|]. split; [done|].
  split; [apply next_id_fresh|]. cbn [fields add_customer customers].
  split; [apply lookup_insert_eq|]. split.
  - intros j Hj. by apply lookup_insert_ne.
  - eexists _, _. split; [apply lookup_insert_eq|done].
Qed.

Lemma CreateCustomer_created_witness :
  ∃ c id,
    Schema.CreateCustomer_mutate 3 "Carol" "carol@example.com"
      (Some "123-456-7890") seeded
    = (Ok {| cc_customer := Some c;
             cc_message := "Customer created successfully";
             cc_errors := [] |},
       add_customer seeded (fields c), [Read TCustomer; Write TCustomer])
    ∧ pk c = Some id
    ∧ fields c = {| name := "Carol"; email := "carol@example.com";
                    phone := Some "123-456-7890"; created_at := 3 |}
    ∧ customers seeded !! id = None
    ∧ customers (add_customer seeded (fields c)) !! id = Some (fields c)
    ∧ (∀ j, j ≠ id →
         customers (add_customer seeded (fields c)) !! j
         = customers seeded !! j)
    ∧ email_taken (add_customer seeded (fields c)) "carol@example.com".
Proof.
  apply (CreateCustomer_created 3 "Carol" "carol@example.com"
           (Some "123-456-7890") seeded).
  - apply email_in_use_false. vm_compute. reflexivity.
  - vm_compute. reflexivity.
Defined.

(** ** Emails stay unique *)

Lemma email_taken_add (st : Store) (f : CustomerFields) (e : string) :
  email_taken (add_customer st f) e ↔ email_taken st e ∨ email f = e.
Proof.
  unfold email_taken, add_customer. cbn [customers]. split.
  - intros (id & g & Hl & He).
    apply lookup_insert_Some in Hl as [[_ <-]|[_ Hl]]; [by right|].
    left. eauto.
  - intros [(id & g & Hl & He)|He].
    + exists id, g. split; [|done]. rewrite lookup_insert_ne; [done|].
      intros <-. by rewrite next_id_fresh in Hl.
    + exists (next_id (customers st)), f. split; [apply lookup_insert_eq|done].
Qed.

Lemma add_customer_emails_unique (st : Store) (f : CustomerFields) :
  emails_unique st → ¬ email_taken st (email f) →
  emails_unique (add_customer st f).
Proof.
  intros Hu Hfree i j g h Hi Hj Heq. unfold add_customer in *.
  cbn [customers] in *.
  apply lookup_insert_Some in Hi as [[<- <-]|[Hni Hi]];
    apply lookup_insert_Some in Hj as [[<- <-]|[Hnj Hj]]; try done.
  - destruct Hfree. exists j, h. by split.
  - destruct Hfree. exists i, g. by split.
  - by apply (Hu i j g h).
Qed.

(** X2 — CreateCustomer keeps the emails of the store unique, whatever it is
    called with. *)
Theorem CreateCustomer_emails_unique now name e phone st :
  emails_unique st →
  emails_unique (store_after (Schema.CreateCustomer_mutate now name e phone st)).
Proof.
  intros Hu. rewrite Schema_CreateCustomer_unfold.
  pose proof (customer_errors_nil st e phone) as Hnil.
  destruct (customer_errors st e phone) as [|msg l]; cbn [nonempty]; [|done].
  unfold store_after. cbn [fst snd].
  apply add_customer_emails_unique; [done|]. by apply Hnil.
Qed.

Lemma emails_unique_seeded : emails_unique seeded.
Proof.
  intros i j f g Hi Hj He.
  apply elem_of_map_to_list in Hi, Hj.
  replace (map_to_list (customers seeded))
    with [(2, {| name := "Bob"; email := "bob@example.com";
                 phone := Some "123-456-7890"; created_at := 0%Z |});
          (1, {| name := "Alice"; email := "alice@example.com";
                 phone := Some "+1234567890"; created_at := 0%Z |})]
    in Hi, Hj by (vm_compute; reflexivity).
  apply elem_of_cons in Hi as [Hi|Hi%list_elem_of_singleton];
    apply elem_of_cons in Hj as [Hj|Hj%list_elem_of_singleton];
    injection Hi as -> ->; injection Hj as -> ->; done.
Qed.

Lemma CreateCustomer_emails_unique_witness :
  emails_unique
    (store_after (Schema.CreateCustomer_mutate 0 "Carol" "carol@example.com"
                    None seeded)).
Proof.
  apply (CreateCustomer_emails_unique 0 "Carol" "carol@example.com" None seeded).
  apply emails_unique_seeded.
Defined.

(** ** The store after CreateCustomer *)

Lemma Schema_CreateCustomer_store now data st :
  store_after
    (Schema.CreateCustomer_mutate now (in_name data) (in_email data)
       (in_phone data) st)
  = match row_violation st data with
    | Some _ => st
    | None => add_customer st (row_fields now data)
    end.
Proof.
  rewrite Schema_CreateCustomer_unfold. unfold customer_errors, row_violation.
  destruct (email_in_use st (in_email data)),
    (phone_accepted (in_phone data)); reflexivity.
Qed.

(** ** Batches keep emails unique *)

Lemma bulk_spec_emails now :
  ∀ input i st,
  emails_unique st →
  emails_unique (bulk_store now i input st)
  ∧ NoDup ((fun c => email (fields c)) <$> bulk_created now i input st)
  ∧ ∀ c, c ∈ bulk_created now i input st → ¬ email_taken st (email (fields c)).
Proof.
  induction input as [|data rest IH]; intros i st Hu.
  - split; [done|]. split; [constructor|]. by intros c ?%not_elem_of_nil.
  - unfold bulk_created, bulk_store. rewrite bulk_spec_cons.
    destruct (row_violation st data) eqn:Hv; cbn [fst snd]; [by apply IH|].
    apply row_violation_None in Hv as [Hfree _].
    destruct (IH (S i) (add_customer st (row_fields now data)))
      as (Hu' & Hnd & Hnew).
    { by apply add_customer_emails_unique. }
    split; [done|]. split.
    + cbn [fmap list_fmap]. apply NoDup_cons. split; [|done].
      intros (c & Hc & Hin)%list_elem_of_fmap. apply (Hnew c Hin).
      apply email_taken_add. right. exact Hc.
    + intros c [->|Hin]%elem_of_cons; [done|].
      intros Ht. apply (Hnew c Hin). apply email_taken_add. by left.
Qed.

(** X3 — BulkCreateCustomers keeps the emails of the store unique; the
    customers it returns have pairwise distinct emails, none of which a
    customer had before the batch: of the rows of a batch that share an
    email, at most the first is created. *)
Theorem BulkCreateCustomers_emails_unique now input st :
  emails_unique st →
  emails_unique (store_after (Schema.BulkCreateCustomers_mutate now input st))
  ∧ ∃ p, result (Schema.BulkCreateCustomers_mutate now input st) = Ok p
         ∧ NoDup ((fun c => email (fields c)) <$> bc_customers p)
         ∧ ∀ c, c ∈ bc_customers p → ¬ email_taken st (email (fields c)).
Proof.
  intros Hu.
  destruct (Schema_bulk_loop_spec now input 0 st [] []) as [ops Hloop].
  unfold Schema.BulkCreateCustomers_mutate, atomic. rewrite Hloop.
  unfold store_after, result. cbn [fst snd app].
  destruct (bulk_spec_emails now input 0 st Hu) as (Hu' & Hnd & Hnew).
  split; [done|]. eexists. split; [reflexivity|]. by split.
Qed.

Lemma BulkCreateCustomers_emails_unique_witness :
  emails_unique
    (store_after
       (Schema.BulkCreateCustomers_mutate 0 [carol; carol; alice_again] seeded))
  ∧ ∃ p, result (Schema.BulkCreateCustomers_mutate 0
                   [carol; carol; alice_again] seeded) = Ok p
         ∧ NoDup ((fun c => email (fields c)) <$> bc_customers p)
         ∧ ∀ c, c ∈ bc_customers p → ¬ email_taken seeded (email (fields c)).
Proof.
  apply (BulkCreateCustomers_emails_unique 0 [carol; carol; alice_again] seeded).
  apply emails_unique_seeded.
Defined.

(** ** Creating a product *)



Lemma Schema_CreateProduct_extends pname price stock st :
  customers (store_after (Schema.CreateProduct_mutate pname price stock st))
  = customers st
  ∧ products st
    ⊆ products (store_after (Schema.CreateProduct_mutate pname price stock st))
  ∧ orders (store_after (Schema.CreateProduct_mutate pname price stock st))
    = orders st
  ∧ order_products
      (store_after (Schema.CreateProduct_mutate pname price stock st))
    = order_products st.
Proof.
  rewrite Schema_CreateProduct_unfold.
  destruct (nonempty (product_errors price stock)); unfold store_after;
    cbn [fst snd customers products orders order_products]; [done|].
  repeat split. apply insert_subseteq, next_id_fresh.
Qed.

(** ** Creating an order *)


(** ** Mutations only add rows *)

Lemma extends_refl (st : Store) : extends st st.
Proof. by repeat split. Qed.

Lemma add_customer_extends (st : Store) (f : CustomerFields) :
  extends st (add_customer st f).
Proof.
  repeat split; try done. apply insert_subseteq, next_id_fresh.
Qed.

Lemma Schema_mutations_extend now st :
  (∀ name e phone,
     extends st (store_after (Schema.CreateCustomer_mutate now name e phone st)))
  ∧ (∀ input,
       extends st (store_after (Schema.BulkCreateCustomers_mutate now input st)))
  ∧ (∀ pname price stock,
       extends st
         (store_after (Schema.CreateProduct_mutate pname price stock st)))
  ∧ (∀ cid ids date,
       extends st (store_after (Schema.CreateOrder_mutate now cid ids date st))
       ∧ customers (store_after (Schema.CreateOrder_mutate now cid ids date st))
         = customers st
       ∧ products (store_after (Schema.CreateOrder_mutate now cid ids date st))
         = products st).
Proof.
  split; [|split; [|split]].
  - intros name e phone.
    pose proof (Schema_CreateCustomer_store now
                  {| in_name := name; in_email := e; in_phone := phone |} st)
      as Hs.
    cbn [in_name in_email in_phone] in Hs. rewrite Hs.
    destruct (row_violation _ _); [apply extends_refl|apply add_customer_extends].
  - intros input.
    destruct (Schema_bulk_loop_spec now input 0 st [] []) as [ops Hloop].
    unfold Schema.BulkCreateCustomers_mutate, atomic. rewrite Hloop.
    unfold store_after. cbn [fst snd].
    destruct (bulk_spec_store now input 0 st) as (Hc & Hp & Ho & Hop & _).
    unfold extends, bulk_store in *. rewrite Hp, Ho, Hop. by repeat split.
  - intros pname price stock.
    destruct (Schema_CreateProduct_extends pname price stock st)
      as (Hc & Hp & Ho & Hop).
    unfold extends. rewrite Hc, Ho, Hop. by repeat split.
  - intros cid ids date. rewrite Schema_CreateOrder_unfold.
    destruct (customers st !! cid); [|by repeat split].
    destruct ids as [|i ids]; [by repeat split|].
    case_decide; [|by repeat split].
    unfold store_after, store_with_order.
    cbn [fst snd customers products orders order_products].
    repeat split; try done.
    + apply insert_subseteq, next_id_fresh.
    + intros oid [o Ho]. apply lookup_insert_ne. intros <-.
      by rewrite next_id_fresh in Ho.
Qed.

(** X6 — No mutation of [schema.py] removes or changes a row that is stored:
    after CreateCustomer, BulkCreateCustomers, CreateProduct or
    CreateOrder, whatever the arguments, every customer, product and
    order of the store is as before, and so is the product set of every
    order.  CreateOrder leaves the customers and the products exactly as
    they were: it changes no stock. *)
Theorem mutations_only_add now st :
  (∀ name e phone,
     extends st (store_after (Schema.CreateCustomer_mutate now name e phone st)))
  ∧ (∀ input,
       extends st (store_after (Schema.BulkCreateCustomers_mutate now input st)))
  ∧ (∀ pname price stock,
       extends st
         (store_after (Schema.CreateProduct_mutate pname price stock st)))
  ∧ (∀ cid ids date,
       extends st (store_after (Schema.CreateOrder_mutate now cid ids date st))
       ∧ customers (store_after (Schema.CreateOrder_mutate now cid ids date st))
         = customers st
       ∧ products (store_after (Schema.CreateOrder_mutate now cid ids date st))
         = products st).
Proof. apply Schema_mutations_extend. Qed.
